(** * The knapsack and assignment notebooks as mixed-integer models

    The repository holds two notebooks.  Each one writes down the data of a
    small instance, builds a model through the gurobipy modelling interface
    (variables, one linear objective, linear constraints), calls the solver
    and prints the assignment it returned.

    The development follows that pipeline:
    - [Py]        the Python constructs the notebooks lean on (for loops over
                  a collection whose body may raise, f-string formatting);
    - [Gurobi]    the slice of the modelling interface that is called, as a
                  model record threaded through the calls, and the meaning
                  of a model (feasible and optimal assignments);
    - [Knapsack]  the first notebook;
    - [Assignment] the second notebook.

    Numbers.  The notebooks hold their data in Python floats.  Here every
    number literal is read as the rational it denotes in decimal
    ([5.94] is [594/100]) and all sums are rational sums. *)

From stdpp Require Import gmap strings list sorting.
From Stdlib Require Import QArith Lqa DecimalString DecimalNat.
Close Scope Q_scope.

(** ** Python constructs *)

Module Py.

(** [for a in l: body], when the body updates one local [s] and may raise:
    the first failure aborts the loop. *)
Fixpoint for_in {A S : Type} (l : list A) (body : A → S → option S) (s : S)
  : option S :=
  match l with
  | [] => Some s
  | a :: l' => s' ← body a s; for_in l' body s'
  end.

(** A loop body either falls through to the next round or executes [break]. *)
Inductive control (S : Type) : Type :=
  | Continue (s : S)
  | Break (s : S).
Arguments Continue {S} s.
Arguments Break {S} s.

(** [for a in l: body] with a [break] in the body. *)
Fixpoint for_in_break {A S : Type} (l : list A)
    (body : A → S → option (control S)) (s : S) : option S :=
  match l with
  | [] => Some s
  | a :: l' =>
      r ← body a s;
      match r with
      | Continue s' => for_in_break l' body s'
      | Break s' => Some s'
      end
  end.

(** [itertools.product(l, k)]: the last index runs fastest. *)
Definition product {A B : Type} (l : list A) (k : list B) : list (A * B) :=
  a ← l; b ← k; [(a, b)].

(** [f'{n}'] for a non-negative int. *)
Definition str (n : nat) : string := NilEmpty.string_of_uint (Nat.to_uint n).

(** ['-'*k] *)
Fixpoint repeat_str (s : string) (k : nat) : string :=
  match k with
  | O => ""
  | S k' => s +:+ repeat_str s k'
  end.

(** [e > 0.1] on numbers. *)
Definition gt (p q : Q) : bool := negb (Qle_bool p q).

End Py.

(** ** The modelling interface *)

Module Gurobi.

(** [GRB.BINARY], [GRB.INTEGER], [GRB.CONTINUOUS] *)
Inductive vtype := BINARY | INTEGER | CONTINUOUS.

(** [GRB.MAXIMIZE], [GRB.MINIMIZE] *)
Inductive sense := MAXIMIZE | MINIMIZE.

(** The sense of a linear constraint: [<=], [==], [>=]
    ([GRB.LESS_EQUAL], [GRB.EQUAL], [GRB.GREATER_EQUAL]). *)
Inductive csense := LESS_EQUAL | EQUAL | GREATER_EQUAL.

Section api.
Context {K : Type} `{Countable K}.

(** A variable made by [addVars] is known by its index key [k]; gurobipy
    names it [X[k]]. *)
Definition Var : Type := K.

(** What [addVars] returns: the dictionary from index keys to variables.
    [X[k]] is the lookup [X !! k] and raises outside the keys. *)
Definition tupledict : Type := gmap K Var.

(** A linear expression is the list of its terms, in the order added. *)
Definition LinExpr : Type := list (Q * Var).

(** [gurobipy.LinExpr()] *)
Definition LinExpr_new : LinExpr := [].
(** [q * x] for a number [q] and a variable [x] *)
Definition times (q : Q) (x : Var) : LinExpr := [(q, x)].
(** a variable used as an expression *)
Definition of_var (x : Var) : LinExpr := [(1%Q, x)].
(** [e.add(e')] *)
Definition add (e e' : LinExpr) : LinExpr := e ++ e'.

(** [e <= q], [e == q], [e >= q]: the argument of [addConstr]. *)
Record TempConstr := mkTempConstr {
  tc_lhs : LinExpr;
  tc_sense : csense;
  tc_rhs : Q
}.

Record Constr := mkConstr {
  ConstrName : string;
  constr_body : TempConstr
}.

Record Model := mkModel {
  ModelName : string;
  model_vars : list (Var * vtype);
  model_obj : LinExpr;
  ModelSense : sense;
  model_constrs : list Constr
}.

(** [gurobipy.Model(name)]: no variable, no constraint, the zero objective,
    to be minimized. *)
Definition Model_new (name : string) : Model :=
  mkModel name [] LinExpr_new MINIMIZE [].

(** [model.addVars(keys, vtype=vt, name=...)] *)
Definition addVars (keys : list K) (vt : vtype) (m : Model)
  : tupledict * Model :=
  (list_to_map ((λ k, (k, k)) <$> keys),
   mkModel (ModelName m) (model_vars m ++ ((λ k, (k, vt)) <$> keys))
           (model_obj m) (ModelSense m) (model_constrs m)).

(** [model.setObjective(e, sense=s)] *)
Definition setObjective (e : LinExpr) (s : sense) (m : Model) : Model :=
  mkModel (ModelName m) (model_vars m) e s (model_constrs m).

(** [model.addConstr(tc, name=n)] *)
Definition addConstr (tc : TempConstr) (n : string) (m : Model) : Model :=
  mkModel (ModelName m) (model_vars m) (model_obj m) (ModelSense m)
          (model_constrs m ++ [mkConstr n tc]).

(** *** Meaning of a model

    An assignment gives every variable a number ([X[k].x] after a solve). *)
Definition assignment : Type := Var → Q.

Definition value (e : LinExpr) (x : assignment) : Q :=
  foldr (λ (t : Q * Var) acc, (t.1 * x t.2 + acc)%Q) 0%Q e.

Definition binary (q : Q) : Prop := (q == 0)%Q ∨ (q == 1)%Q.

Definition var_ok (x : assignment) (d : Var * vtype) : Prop :=
  match d.2 with
  | BINARY => binary (x d.1)
  | INTEGER => (0 <= x d.1)%Q ∧ ∃ z : Z, (x d.1 == inject_Z z)%Q
  | CONTINUOUS => (0 <= x d.1)%Q
  end.

Definition holds (x : assignment) (c : Constr) : Prop :=
  let tc := constr_body c in
  match tc_sense tc with
  | LESS_EQUAL => (value (tc_lhs tc) x <= tc_rhs tc)%Q
  | EQUAL => (value (tc_lhs tc) x == tc_rhs tc)%Q
  | GREATER_EQUAL => (tc_rhs tc <= value (tc_lhs tc) x)%Q
  end.

Definition feasible (m : Model) (x : assignment) : Prop :=
  Forall (var_ok x) (model_vars m) ∧ Forall (holds x) (model_constrs m).

Definition ObjVal (m : Model) (x : assignment) : Q := value (model_obj m) x.

(** What [model.optimize()] is asked for: a feasible assignment that no
    feasible assignment beats. *)
Definition optimal (m : Model) (x : assignment) : Prop :=
  feasible m x ∧
  ∀ y, feasible m y →
    match ModelSense m with
    | MAXIMIZE => (ObjVal m y <= ObjVal m x)%Q
    | MINIMIZE => (ObjVal m x <= ObjVal m y)%Q
    end.

End api.

Arguments Var : clear implicits.
Arguments LinExpr : clear implicits.
Arguments TempConstr : clear implicits.
Arguments Constr : clear implicits.
Arguments Model : clear implicits.
Arguments assignment : clear implicits.
Arguments tupledict K {_ _}.

End Gurobi.

(** Sums as the formulations write them: the sum over [i] in [l] of [f i]. *)
Definition sum_over {A : Type} (l : list A) (f : A → Q) : Q :=
  foldr (λ a acc, (f a + acc)%Q) 0%Q l.

(** [d[k]] read as a number, for the formulas of the formulations (the
    notebooks themselves use the raising lookup [d !! k]). *)
Definition at_key `{Countable K} (d : gmap K Q) (k : K) : Q :=
  default 0%Q (d !! k).

(** ** Vocabulary of the statements *)

#[local] Instance Qeq_decision (p q : Q) : Decision (p == q)%Q := Qeq_dec p q.

#[local] Instance Qle_decision (p q : Q) : Decision (p <= q)%Q :=
  match Qlt_le_dec q p with
  | left Hlt => right (Qlt_not_le q p Hlt)
  | right Hle => left Hle
  end.

(** All the sublists of a list, each in the order of the list. *)
Fixpoint sublists {A : Type} (l : list A) : list (list A) :=
  match l with
  | [] => [[]]
  | a :: l' => (cons a <$> sublists l') ++ sublists l'
  end.

(** The members of [l] that an assignment sets to one. *)
Definition selected {A : Type} (x : A → Q) (l : list A) : list A :=
  filter (λ a, (x a == 1)%Q) l.

(** [q] added up [n] times. *)
Fixpoint nfold (n : nat) (q : Q) : Q :=
  match n with
  | O => 0%Q
  | S n' => (q + nfold n' q)%Q
  end.

(** ** The knapsack notebook *)

Module Knapsack.
Import Gurobi.

(** [I = {i for i in range(1, 11)}].  The loops of the notebook go through
    this set in ascending order (the recorded objective and the recorded
    printout list the items so), hence a list. *)
Definition I : list nat := seq 1 10.

Definition v : gmap nat Q := list_to_map
  [ (1, 5.94%Q); (2, 7.44%Q); (3, 6.42%Q); (4, 5.9%Q); (5, 4.81%Q);
    (6, 6.81%Q); (7, 4.94%Q); (8, 9.03%Q); (9, 9.67%Q); (10, 4.45%Q) ].

Definition w : gmap nat Q := list_to_map
  [ (1, 8.13%Q); (2, 5.76%Q); (3, 6.11%Q); (4, 9.33%Q); (5, 1.64%Q);
    (6, 1.78%Q); (7, 1.18%Q); (8, 8.49%Q); (9, 8.0%Q); (10, 8.83%Q) ].

Definition b : Q := 26.66%Q.

(** The cells from [gurobipy.Model('Knapsack-Problem')] to [addConstr]. *)
Definition build : option (tupledict nat * Model nat) :=
  let model := Model_new "Knapsack-Problem" in
  let '(X, model) := addVars I BINARY model in
  total_value ←
    Py.for_in I (λ i e, vi ← v !! i; Xi ← X !! i; Some (add e (times vi Xi)))
      LinExpr_new;
  let model := setObjective total_value MAXIMIZE model in
  i_sum ←
    Py.for_in I (λ i e, wi ← w !! i; Xi ← X !! i; Some (add e (times wi Xi)))
      LinExpr_new;
  let model :=
    addConstr (mkTempConstr i_sum LESS_EQUAL b) "capacity_constraint" model in
  Some (X, model).

(** The model the cells leave behind, and the variable dictionary. *)
Definition model : Model nat := default (Model_new "") (snd <$> build).
Definition X : tupledict nat := default ∅ (fst <$> build).

(** The printing cell, with [x i] for [X[i].x]; one string per [print]. *)
Definition item_line (i : nat) : string :=
  " - Item " +:+ Py.str i +:+ " included".

Definition report (X : tupledict nat) (x : assignment nat)
  : option (list string) :=
  Py.for_in I
    (λ i out, Xi ← X !! i;
              if Py.gt (x Xi) 0.1%Q then Some (out ++ [item_line i])
              else Some out)
    ["Optimal Assignments"; Py.repeat_str "-" 20].

(** The selection the notebook records: items 2, 3, 5, 6, 7 and 9. *)
Definition reported : list nat := [2; 3; 5; 6; 7; 9].

Definition indicator (S : list nat) : assignment nat :=
  λ i, if decide (i ∈ S) then 1%Q else 0%Q.

(** *** Vocabulary of the statements about the knapsack *)

Local Open Scope Q_scope.

(** The total weight and the total value of a selection, as the formulation
    writes them. *)
Definition total_weight (x : assignment nat) : Q :=
  sum_over I (λ i, (at_key w i * x i)%Q).
Definition total_value (x : assignment nat) : Q :=
  sum_over I (λ i, (at_key v i * x i)%Q).

(** The objective value the notebook records ([model.ObjVal]). *)
Definition recorded_ObjVal : Q := 40.09%Q.

(** The check made on a sublist [S] of the items: if [S] fits the knapsack,
    it is worth at most the recorded optimum, and it reaches the optimum
    only if it is the recorded selection. *)
Definition fits_and_bounded (S : list nat) : bool :=
  implb (Qle_bool (sum_over S (at_key w)) b)
    (Qle_bool (sum_over S (at_key v)) recorded_ObjVal
     && implb (Qle_bool recorded_ObjVal (sum_over S (at_key v)))
              (bool_decide (S = reported))).

(** A subset of the items, summed in whatever order its members come. *)
Definition weight_of (S : gset nat) : Q := sum_over (elements S) (at_key w).
Definition value_of (S : gset nat) : Q := sum_over (elements S) (at_key v).

End Knapsack.

(** ** The assignment notebook *)

Module Assignment.
Import Gurobi.

Definition SIZE : nat := 10.

(** [M = {i for i in range(1, SIZE+1)}], the resources, and [N], the tasks;
    both are gone through in ascending order. *)
Definition M : list nat := seq 1 SIZE.
Definition N : list nat := seq 1 SIZE.

(** The random number generator after [np.random.seed(0)]: [draw k] is what
    the call number [k] (from 0) of [np.random.uniform(low=0.0, high=10.0)]
    returns. *)
Definition rng : Type := nat → Q.

(** [{(i, j): np.random.uniform(...) for i, j in itertools.product(M, N)}]:
    one draw per key, in the order of the keys; a key met again is
    overwritten. *)
Definition draw_costs (draw : rng) (keys : list (nat * nat))
  : gmap (nat * nat) Q :=
  (foldl (λ (st : gmap (nat * nat) Q * nat) k,
            (<[k := draw st.2]> st.1, S st.2)) (∅, 0) keys).1.

(** The hundred samples of the run the notebook records, read off the
    coefficients of the objective it displays ([c[1,1]], [c[1,2]], ...,
    [c[10,10]], the order in which they were drawn). *)
Definition recorded_draws : list Q :=
  [
    5.4881350392732475%Q; 7.151893663724195%Q; 6.027633760716439%Q;
    5.448831829968968%Q; 4.236547993389047%Q; 6.458941130666561%Q;
    4.375872112626925%Q; 8.917730007820797%Q; 9.636627605010293%Q;
    3.8344151882577773%Q;
    7.917250380826646%Q; 5.288949197529044%Q; 5.680445610939323%Q;
    9.25596638292661%Q; 0.7103605819788694%Q; 0.8712929970154071%Q;
    0.2021839744032572%Q; 8.32619845547938%Q; 7.781567509498505%Q;
    8.700121482468191%Q;
    9.78618342232764%Q; 7.9915856421672355%Q; 4.6147936225293185%Q;
    7.805291762864554%Q; 1.1827442586893322%Q; 6.399210213275238%Q;
    1.433532874090464%Q; 9.446689170495839%Q; 5.218483217500717%Q;
    4.146619399905235%Q;
    2.64555612104627%Q; 7.742336894342166%Q; 4.5615033221654855%Q;
    5.684339488686485%Q; 0.18789800436355142%Q; 6.176354970758771%Q;
    6.120957227224214%Q; 6.169339968747569%Q; 9.437480785146242%Q;
    6.818202991034834%Q;
    3.59507900573786%Q; 4.3703195379934145%Q; 6.976311959272649%Q;
    0.6022547162926983%Q; 6.667667154456677%Q; 6.706378696181594%Q;
    2.103825610738409%Q; 1.289262976548533%Q; 3.1542835092418384%Q;
    3.637107709426226%Q;
    5.701967704178797%Q; 4.386015134623204%Q; 9.883738380592263%Q;
    1.0204481074802807%Q; 2.088767560948347%Q; 1.6130951788499626%Q;
    6.531083254653984%Q; 2.532916025397821%Q; 4.663107728563062%Q;
    2.4442559200160274%Q;
    1.5896958364551972%Q; 1.1037514116430513%Q; 6.563295894652734%Q;
    1.381829513486138%Q; 1.965823616800535%Q; 3.687251706609641%Q;
    8.209932298479352%Q; 0.9710127579306127%Q; 8.379449074988038%Q;
    0.9609840789396307%Q;
    9.764594650133958%Q; 4.686512016477016%Q; 9.767610881903371%Q;
    6.04845519745046%Q; 7.3926357939830165%Q; 0.39187792254320675%Q;
    2.828069625764096%Q; 1.201965612131689%Q; 2.9614019752214493%Q;
    1.1872771895424405%Q;
    3.1798317939397602%Q; 4.1426299451467%Q; 0.6414749634878436%Q;
    6.924721193700199%Q; 5.666014542065751%Q; 2.653894909394454%Q;
    5.232480534666997%Q; 0.9394051075844168%Q; 5.759464955561793%Q;
    9.292961975762141%Q;
    3.1856895245132364%Q; 6.674103799636817%Q; 1.3179786240439217%Q;
    7.163272041185655%Q; 2.894060929472011%Q; 1.8319136200711683%Q;
    5.865129348100831%Q; 0.20107546187493552%Q; 8.289400292173632%Q;
    0.046954761925470656%Q
  ].

Definition seed_0 : rng := λ k, nth k recorded_draws 0%Q.

Definition c : gmap (nat * nat) Q := draw_costs seed_0 (Py.product M N).

(** [f'task_{j}_assigned_to_one_resource'] and
    [f'resource_{i}_assigned_to_one_task'] *)
Definition task_name (j : nat) : string :=
  "task_" +:+ Py.str j +:+ "_assigned_to_one_resource".
Definition resource_name (i : nat) : string :=
  "resource_" +:+ Py.str i +:+ "_assigned_to_one_task".

(** The cells from [gurobipy.Model('Assignment-Problem')] to the last
    [addConstr].  The loop variables are named as in the notebook: the
    objective loops [for i in N: for j in M], the constraints
    [for j in N: for i in M] and [for i in M: for j in N]. *)
Definition build : option (tupledict (nat * nat) * Model (nat * nat)) :=
  let model := Model_new "Assignment-Problem" in
  let '(X, model) := addVars (Py.product N M) BINARY model in
  total_cost ←
    Py.for_in N (λ i e,
      Py.for_in M (λ j e,
        cij ← c !! (i, j); Xij ← X !! (i, j);
        Some (add e (times cij Xij))) e)
      LinExpr_new;
  let model := setObjective total_cost MINIMIZE model in
  model ←
    Py.for_in N (λ j model,
      i_sum ← Py.for_in M (λ i e, Xij ← X !! (i, j);
                                  Some (add e (of_var Xij))) LinExpr_new;
      Some (addConstr (mkTempConstr i_sum EQUAL 1%Q) (task_name j) model))
      model;
  model ←
    Py.for_in M (λ i model,
      j_sum ← Py.for_in N (λ j e, Xij ← X !! (i, j);
                                  Some (add e (of_var Xij))) LinExpr_new;
      Some (addConstr (mkTempConstr j_sum EQUAL 1%Q) (resource_name i) model))
      model;
  Some (X, model).

Definition model : Model (nat * nat) := default (Model_new "") (snd <$> build).
Definition X : tupledict (nat * nat) := default ∅ (fst <$> build).

(** The printing cell, with [x (i, j)] for [X[i, j].x]. *)
Definition pair_line (i j : nat) : string :=
  " - Resource " +:+ Py.str i +:+ " -> Task " +:+ Py.str j.

(** The body of the inner loop, for resource [i]:
    [if X[i, j].x > 0.1: print(...); break]. *)
Definition scan (D : tupledict (nat * nat)) (x : assignment (nat * nat))
    (i j : nat) (out : list string) : option (Py.control (list string)) :=
  Xij ← D !! (i, j);
  if Py.gt (x Xij) 0.1%Q
  then Some (Py.Break (out ++ [pair_line i j]))
  else Some (Py.Continue out).

Definition report (X : tupledict (nat * nat)) (x : assignment (nat * nat))
  : option (list string) :=
  Py.for_in M (λ i out, Py.for_in_break N (scan X x i) out)
    ["Optimal Assignments"; Py.repeat_str "-" 20].

(** A way to give every resource a task, as the list of the tasks of
    resources 1, 2, ...; its assignment sets [X[i, j]] to 1 exactly when
    resource [i] gets task [j]. *)
Definition task_of (p : list nat) (i : nat) : option nat := p !! (i - 1).

Definition as_assignment (p : list nat) : assignment (nat * nat) :=
  λ ij, if decide (task_of p ij.1 = Some ij.2) then 1%Q else 0%Q.

(** The sum over the resources [i] of [c[i, p(i)]]. *)
Definition cost (p : list nat) : Q := sum_over (zip M p) (at_key c).

(** The matching the notebook records: 1 to 10, 2 to 7, 3 to 5, 4 to 1,
    5 to 9, 6 to 4, 7 to 2, 8 to 6, 9 to 3, 10 to 8. *)
Definition reported : list nat := [10; 7; 5; 1; 9; 4; 2; 6; 3; 8].

(** *** Vocabulary of the statements about the assignment model *)

Local Open Scope Q_scope.

(** The constraint the notebook adds for task [j], and for resource [i]. *)
Definition task_constr (j : nat) : Constr (nat * nat) :=
  mkConstr (task_name j)
    (mkTempConstr ((λ i, (1, (i, j))) <$> M) EQUAL 1).
Definition resource_constr (i : nat) : Constr (nat * nat) :=
  mkConstr (resource_name i)
    (mkTempConstr ((λ j, (1, (i, j))) <$> N) EQUAL 1).

(** The task a 0/1 assignment gives resource [i]: the first task [j] of
    [N] with [x (i, j)] equal to one; and the list of these tasks over the
    resources. *)
Definition task_given (x : assignment (nat * nat)) (i : nat) : nat :=
  default 0%nat (head (selected (λ j, x (i, j)) N)).
Definition induced (x : assignment (nat * nat)) : list nat :=
  task_given x <$> M.

(** The cheapest matching.

    Optimality is certified by prices: a price for every resource and one
    for every task such that no pair costs less than its two prices, the
    pairs of the recorded matching cost exactly their prices, and every
    other pair costs at least [margin] more. *)
Definition resource_prices : list Q :=
  [0; - 2.79; - 1.66; - 2.75; - 2.89; - 2.05; - 3.9; - 3.18; - 3.24; - 3.88].

Definition resource_price (i : nat) : Q := nth (i - 1) resource_prices 0.

(** The resource that the recorded matching gives each task. *)
Definition holder : list nat := [4; 7; 9; 6; 3; 8; 2; 10; 5; 1]%nat.

Definition task_price (j : nat) : Q :=
  let i := nth (j - 1) holder 0%nat in
  at_key c (i, j) - resource_price i.

Definition slack (ij : nat * nat) : Q :=
  at_key c ij - resource_price ij.1 - task_price ij.2.

Definition margin : Q := 0.08.

Definition priced (ij : nat * nat) : bool :=
  if decide (task_of reported ij.1 = Some ij.2)
  then Qeq_bool (slack ij) 0
  else Qle_bool margin (slack ij).

(** The cost of a matching, split into the prices, which do not depend on
    the matching, and the slack of its pairs. *)
Definition total_price : Q :=
  sum_over M resource_price + sum_over N task_price.

(** Costs known up to rounding.

    The solver works on binary floats; the notebook displays each cost as
    the shortest decimal that reads back as the same float, so the two
    differ by less than one unit in the last displayed digit.  The recorded
    matching stays the only cheapest one for any costs within [rounding] of
    the displayed ones. *)
Definition rounding : Q := 0.003.

Definition near (c' : nat * nat → Q) : Prop :=
  ∀ i j, i ∈ M → j ∈ N →
    - rounding <= c' (i, j) - at_key c (i, j) ∧
    c' (i, j) - at_key c (i, j) <= rounding.

End Assignment.

(** ** The cells as functions of the data they read

    The cells after the data cell do not depend on the numbers of the
    instance: they read [I], [v], [w], [b] (knapsack) and [SIZE], [c]
    (assignment).  Here they are with the data as arguments, and the solver
    as an argument too: [model.optimize()] is any way of giving the
    variables of a model their values. *)

Module Cells.
Import Gurobi.

Definition solver (K : Type) : Type := Model K → assignment K.

(** The knapsack cells from [gurobipy.Model] to [addConstr]. *)
Definition knapsack_build (I : list nat) (v w : gmap nat Q) (b : Q)
  : option (tupledict nat * Model nat) :=
  let model := Model_new "Knapsack-Problem" in
  let '(X, model) := addVars I BINARY model in
  total_value ←
    Py.for_in I (λ i e, vi ← v !! i; Xi ← X !! i; Some (add e (times vi Xi)))
      LinExpr_new;
  let model := setObjective total_value MAXIMIZE model in
  i_sum ←
    Py.for_in I (λ i e, wi ← w !! i; Xi ← X !! i; Some (add e (times wi Xi)))
      LinExpr_new;
  let model :=
    addConstr (mkTempConstr i_sum LESS_EQUAL b) "capacity_constraint" model in
  Some (X, model).



(** The assignment cells from [gurobipy.Model] to the last [addConstr]. *)
Definition assignment_build (SIZE : nat) (c : gmap (nat * nat) Q)
  : option (tupledict (nat * nat) * Model (nat * nat)) :=
  let M := seq 1 SIZE in
  let N := seq 1 SIZE in
  let model := Model_new "Assignment-Problem" in
  let '(X, model) := addVars (Py.product N M) BINARY model in
  total_cost ←
    Py.for_in N (λ i e,
      Py.for_in M (λ j e,
        cij ← c !! (i, j); Xij ← X !! (i, j);
        Some (add e (times cij Xij))) e)
      LinExpr_new;
  let model := setObjective total_cost MINIMIZE model in
  model ←
    Py.for_in N (λ j model,
      i_sum ← Py.for_in M (λ i e, Xij ← X !! (i, j);
                                  Some (add e (of_var Xij))) LinExpr_new;
      Some (addConstr (mkTempConstr i_sum EQUAL 1%Q)
              (Assignment.task_name j) model))
      model;
  model ←
    Py.for_in M (λ i model,
      j_sum ← Py.for_in N (λ j e, Xij ← X !! (i, j);
                                  Some (add e (of_var Xij))) LinExpr_new;
      Some (addConstr (mkTempConstr j_sum EQUAL 1%Q)
              (Assignment.resource_name i) model))
      model;
  Some (X, model).

(** The assignment printing cell. *)
Definition assignment_report (SIZE : nat) (X : tupledict (nat * nat))
    (x : assignment (nat * nat)) : option (list string) :=
  let M := seq 1 SIZE in
  let N := seq 1 SIZE in
  Py.for_in M (λ i out, Py.for_in_break N (Assignment.scan X x i) out)
    ["Optimal Assignments"; Py.repeat_str "-" 20].

(** The "All together" cell of the assignment notebook: draw the costs,
    build, solve, print. *)
Definition assignment_cell (SIZE : nat) (draw : Assignment.rng)
    (optimize : solver (nat * nat)) : option (list string) :=
  let M := seq 1 SIZE in
  let N := seq 1 SIZE in
  let c := Assignment.draw_costs draw (Py.product M N) in
  '(X, model) ← assignment_build SIZE c;
  assignment_report SIZE X (optimize model).

(** *** Vocabulary of the statements about the cells *)

Local Open Scope Q_scope.

(** The knapsack formulation as a model: one binary variable per item,
    "maximize the sum of [v i * X i]", "the sum of [w i * X i] is at most
    [b]". *)
Definition knapsack_formulation (I : list nat) (v w : gmap nat Q) (b : Q)
  : Model nat :=
  mkModel "Knapsack-Problem" ((λ i, (i, BINARY)) <$> I)
    ((λ i, (at_key v i, i)) <$> I) MAXIMIZE
    [mkConstr "capacity_constraint"
       (mkTempConstr ((λ i, (at_key w i, i)) <$> I) LESS_EQUAL b)].

(** The dictionary [addVars] returns on these keys. *)
Definition key_dict `{Countable K} (keys : list K) : tupledict K :=
  list_to_map ((λ k, (k, k)) <$> keys).

(** The loop [for k in l: e.add(q[k] * X[k])]. *)
Definition term_loop `{Countable K} (q : gmap K Q) (D : gmap K K)
    (l : list K) (e : LinExpr K) : option (LinExpr K) :=
  Py.for_in l (λ k e, qk ← q !! k; Xk ← D !! k; Some (add e (times qk Xk))) e.

(** The loop [for k in l: e.add(X[key k])]. *)
Definition var_loop `{Countable K} {A} (D : gmap K K) (key : A → K)
    (l : list A) (e : LinExpr K) : option (LinExpr K) :=
  Py.for_in l (λ a e, Xk ← D !! key a; Some (add e (of_var Xk))) e.

(** The assignment formulation as a model, for [SIZE] resources and
    tasks: one binary variable per pair, "minimize the sum of
    [c (i, j) * X (i, j)]", one constraint per task (its resources sum to
    one) and then one per resource (its tasks sum to one). *)
Definition task_row (SIZE j : nat) : Constr (nat * nat) :=
  mkConstr (Assignment.task_name j)
    (mkTempConstr ((λ i, (1, (i, j))) <$> seq 1 SIZE) EQUAL 1).
Definition resource_row (SIZE i : nat) : Constr (nat * nat) :=
  mkConstr (Assignment.resource_name i)
    (mkTempConstr ((λ j, (1, (i, j))) <$> seq 1 SIZE) EQUAL 1).

Definition assignment_formulation (SIZE : nat) (c : gmap (nat * nat) Q)
  : Model (nat * nat) :=
  let R := seq 1 SIZE in
  mkModel "Assignment-Problem" ((λ k, (k, BINARY)) <$> Py.product R R)
    ((λ k, (at_key c k, k)) <$> Py.product R R) MINIMIZE
    ((task_row SIZE <$> R) ++ (resource_row SIZE <$> R)).

(** The task a 0/1 assignment gives resource [i] among [SIZE] tasks (the
    first one set to one), and the list of these tasks. *)
Definition task_given_on (SIZE : nat) (x : assignment (nat * nat)) (i : nat)
  : nat :=
  default 0%nat (head (selected (λ j, x (i, j)) (seq 1 SIZE))).
Definition induced_on (SIZE : nat) (x : assignment (nat * nat)) : list nat :=
  task_given_on SIZE x <$> seq 1 SIZE.

(** The all-zero assignment. *)
Definition none_selected {K : Type} : assignment K := λ _, 0.

End Cells.

(** ** Sums, selections and sublists *)

Local Open Scope Q_scope.

Section sums.
Context {A : Type}.
Implicit Types (l : list A) (f g x : A → Q).

Lemma sum_over_ext l f g :
  (∀ a, a ∈ l → f a == g a) → sum_over l f == sum_over l g.
Proof.
  induction l as [|a l IH]; intros Hfg; simpl; [reflexivity|].
  pose proof (Hfg a (list_elem_of_here _ _)) as Ha.
  assert (sum_over l f == sum_over l g) as Hl
    by (apply IH; intros a' Ha'; apply Hfg; by right).
  lra.
Qed.

Lemma sum_over_Permutation l l' f :
  l ≡ₚ l' → sum_over l f == sum_over l' f.
Proof. induction 1; simpl; lra. Qed.

Lemma sum_over_selected l f x :
  (∀ a, a ∈ l → Gurobi.binary (x a)) →
  sum_over l (λ a, f a * x a) == sum_over (selected x l) f.
Proof.
  unfold selected.
  induction l as [|a l IH]; intros Hbin; simpl; [reflexivity|].
  assert (sum_over l (λ a, f a * x a) == sum_over (filter (λ a, x a == 1) l) f)
    as Hl by (apply IH; intros a' Ha'; apply Hbin; by right).
  rewrite filter_cons. destruct (decide (x a == 1)) as [H1|H1]; simpl.
  - rewrite H1. lra.
  - destruct (Hbin a (list_elem_of_here _ _)) as [H0|?]; [|done].
    rewrite H0. lra.
Qed.

Lemma filter_sublist (P : A → Prop) `{∀ a, Decision (P a)} l :
  filter P l ∈ sublists l.
Proof.
  induction l as [|a l IH]; simpl; [by left|].
  rewrite filter_cons, elem_of_app. destruct (decide (P a)); [left|by right].
  by apply list_elem_of_fmap_2.
Qed.

Lemma filter_StronglySorted (R : relation A) (P : A → Prop)
    `{∀ a, Decision (P a)} l :
  StronglySorted R l → StronglySorted R (filter P l).
Proof.
  induction 1 as [|a l Hl IH Ha]; [constructor|].
  rewrite filter_cons. case_decide; [|done].
  constructor; [done|].
  apply Forall_forall. intros a' [_ Ha']%list_elem_of_filter.
  rewrite Forall_forall in Ha. by apply Ha.
Qed.

End sums.

Lemma value_sum_over `{Countable K} (e : Gurobi.LinExpr K) x :
  Gurobi.value e x = sum_over e (λ t, t.1 * x t.2).
Proof. reflexivity. Qed.

Lemma value_fmap `{Countable K} {A} (l : list A) (q : A → Q) (k : A → K) x :
  Gurobi.value ((λ a, (q a, k a)) <$> l) x = sum_over l (λ a, q a * x (k a)).
Proof. induction l as [|a l IH]; simpl; [done|]. by f_equal. Qed.

(** The dictionary [addVars] returns sends each of its keys to the variable
    of that key. *)
Lemma lookup_key_dict `{Countable K} (keys : list K) (k : K) :
  k ∈ keys →
  (list_to_map ((λ k, (k, k)) <$> keys) : gmap K K) !! k = Some k.
Proof.
  induction keys as [|k' keys IH]; intros Hk; [by inversion Hk|].
  rewrite fmap_cons, list_to_map_cons.
  destruct (decide (k' = k)) as [->|Hne]; [by rewrite lookup_insert_eq|].
  rewrite lookup_insert_ne by done.
  apply elem_of_cons in Hk as [->|Hk]; [done|by apply IH].
Qed.

Lemma binary_cases q : Gurobi.binary q → q == 1 ∨ (q == 0 ∧ ¬ q == 1).
Proof. intros [H0|H1]; [right|by left]. split; [done|]. rewrite H0. lra. Qed.

(** ** The knapsack notebook: what it builds, what the solver may return *)

Module KnapsackSpec.
Import Gurobi Knapsack.

(** What the cells compute. *)
Lemma knapsack_build_eq :
  build = Some
    (list_to_map ((λ i, (i, i)) <$> I),
     mkModel "Knapsack-Problem" ((λ i, (i, BINARY)) <$> I)
       ((λ i, (at_key v i, i)) <$> I) MAXIMIZE
       [mkConstr "capacity_constraint"
          (mkTempConstr ((λ i, (at_key w i, i)) <$> I) LESS_EQUAL b)]).
Proof. vm_compute. reflexivity. Qed.

Lemma knapsack_model_eq :
  model =
    mkModel "Knapsack-Problem" ((λ i, (i, BINARY)) <$> I)
      ((λ i, (at_key v i, i)) <$> I) MAXIMIZE
      [mkConstr "capacity_constraint"
         (mkTempConstr ((λ i, (at_key w i, i)) <$> I) LESS_EQUAL b)].
Proof. unfold model. by rewrite knapsack_build_eq. Qed.

Lemma ObjVal_eq x : ObjVal model x = total_value x.
Proof. unfold ObjVal. rewrite knapsack_model_eq. reflexivity. Qed.

Lemma knapsack_feasible_iff x :
  feasible model x ↔ (∀ i, i ∈ I → binary (x i)) ∧ total_weight x <= b.
Proof.
  unfold feasible. rewrite knapsack_model_eq. cbn [model_vars model_constrs].
  rewrite Forall_fmap, Forall_forall, Forall_singleton.
  reflexivity.
Qed.

(** The check holds on each of the 1024 sublists of the items. *)
Lemma all_sublists_checked : forallb fits_and_bounded (sublists I) = true.
Proof. vm_compute. reflexivity. Qed.

Lemma sublist_bounded S :
  S ∈ sublists I → sum_over S (at_key w) <= b →
  sum_over S (at_key v) <= recorded_ObjVal ∧
  (recorded_ObjVal <= sum_over S (at_key v) → S = reported).
Proof.
  intros HS Hfit.
  pose proof all_sublists_checked as Hall.
  rewrite forallb_forall in Hall.
  apply list_elem_of_In, Hall in HS. unfold fits_and_bounded in HS.
  apply Qle_bool_iff in Hfit. rewrite Hfit in HS. simpl in HS.
  apply andb_prop in HS as [Hle Huniq]. split.
  - by apply Qle_bool_iff.
  - intros Hge. apply Qle_bool_iff in Hge. rewrite Hge in Huniq.
    simpl in Huniq. by apply bool_decide_eq_true in Huniq.
Qed.

(** Hence the bound on every feasible assignment, through the items it
    sets to one. *)
Lemma feasible_bounded x :
  feasible model x →
  total_value x <= recorded_ObjVal ∧
  (recorded_ObjVal <= total_value x → selected x I = reported).
Proof.
  intros [Hbin Hcap]%knapsack_feasible_iff.
  unfold total_weight in Hcap. unfold total_value.
  rewrite sum_over_selected in Hcap by done.
  rewrite sum_over_selected by done.
  apply sublist_bounded; [apply filter_sublist | done].
Qed.

Lemma indicator_binary S i : binary (indicator S i).
Proof. unfold indicator, binary. destruct (decide (i ∈ S)); [right|left]; reflexivity. Qed.

Lemma knapsack_reported_feasible : feasible model (indicator reported).
Proof.
  apply knapsack_feasible_iff. split; [intros; apply indicator_binary|].
  vm_compute. discriminate.
Qed.

Lemma reported_value : total_value (indicator reported) == recorded_ObjVal.
Proof. vm_compute. reflexivity. Qed.

Lemma agrees_with_selected x i :
  i ∈ I → binary (x i) → x i == indicator (selected x I) i.
Proof.
  intros Hi Hb. unfold indicator, selected.
  case_decide as Hin.
  - apply list_elem_of_filter in Hin. tauto.
  - destruct (binary_cases _ Hb) as [H1|[H0 _]]; [|exact H0].
    destruct Hin. apply list_elem_of_filter. tauto.
Qed.

Lemma feasible_ext x y :
  (∀ i, i ∈ I → x i == y i) → feasible model y → feasible model x.
Proof.
  intros Hxy [Hbin Hcap]%knapsack_feasible_iff. apply knapsack_feasible_iff. split.
  - intros i Hi. destruct (Hbin i Hi) as [H0|H1]; [left|right];
      by rewrite (Hxy i Hi).
  - unfold total_weight in *.
    rewrite (sum_over_ext I _ (λ i, at_key w i * y i)); [done|].
    intros i Hi. simpl. by rewrite (Hxy i Hi).
Qed.

Lemma total_value_ext x y :
  (∀ i, i ∈ I → x i == y i) → total_value x == total_value y.
Proof.
  intros Hxy. apply sum_over_ext. intros i Hi. simpl. by rewrite (Hxy i Hi).
Qed.

Lemma subset_as_sublist (S : gset nat) :
  S ⊆ list_to_set I → elements S ≡ₚ filter (λ i, i ∈ S) I.
Proof.
  intros HS. apply NoDup_Permutation.
  - apply NoDup_elements.
  - apply NoDup_filter, NoDup_seq.
  - intros i. rewrite elem_of_elements, list_elem_of_filter.
    split; [|tauto]. intros Hi. split; [done|].
    apply HS in Hi. by apply elem_of_list_to_set in Hi.
Qed.

(** On a value that is 0 or 1, the test [> 0.1] is the test "is 1". *)
Lemma gt_tenth_binary q :
  binary q → Py.gt q 0.1 = true ↔ q == 1.
Proof.
  intros Hq. unfold Py.gt. rewrite negb_true_iff.
  destruct (Qle_bool q 0.1) eqn:Hle.
  - apply Qle_bool_iff in Hle. split; [done|]. intros H1. lra.
  - split; [intros _|done]. destruct Hq as [H0|H1]; [|done].
    assert (Qle_bool q 0.1 = true) as Hle'
      by (apply Qle_bool_iff; lra).
    congruence.
Qed.

(** The printing loop, from any point of the item list on. *)
Lemma report_loop (D : tupledict nat) x l out :
  (∀ i, i ∈ l → D !! i = Some i) →
  (∀ i, i ∈ l → binary (x i)) →
  Py.for_in l
    (λ i out, Xi ← D !! i;
              if Py.gt (x Xi) 0.1 then Some (out ++ [item_line i])
              else Some out) out
  = Some (out ++ (item_line <$> selected x l)).
Proof.
  unfold selected. revert out.
  induction l as [|i l IH]; intros out HD Hbin; simpl.
  - by rewrite app_nil_r.
  - rewrite (HD i) by left. simpl.
    pose proof (gt_tenth_binary (x i) (Hbin i (list_elem_of_here _ _))) as Hgt.
    rewrite filter_cons.
    destruct (Py.gt (x i) 0.1) eqn:Hg; simpl.
    + rewrite decide_True by (by apply Hgt).
      rewrite IH;
        [|intros; apply HD; by right|intros; apply Hbin; by right].
      by rewrite <- app_assoc.
    + rewrite decide_False
        by (intros H1; apply Hgt in H1; congruence).
      apply IH; [intros; apply HD; by right|intros; apply Hbin; by right].
Qed.

Lemma knapsack_X_lookup i : i ∈ I → X !! i = Some i.
Proof.
  revert i. apply Forall_forall. unfold X. rewrite knapsack_build_eq.
  repeat constructor.
Qed.

(** C1.  An assignment is an optimal solution of the knapsack model exactly
    when it selects items 2, 3, 5, 6, 7 and 9 and nothing else; the value of
    that selection is 7.44 + 6.42 + 4.81 + 6.81 + 4.94 + 9.67, which is
    40.09 in rational arithmetic. *)
Theorem optimum_is_reported_selection :
  (∀ x, optimal model x ↔ ∀ i, i ∈ I → x i == indicator reported i) ∧
  selected (indicator reported) I = [2; 3; 5; 6; 7; 9]%nat ∧
  ObjVal model (indicator reported) == 40.09 ∧
  sum_over reported (at_key v)
    = 7.44 + (6.42 + (4.81 + (6.81 + (4.94 + (9.67 + 0))))) ∧
  7.44 + 6.42 + 4.81 + 6.81 + 4.94 + 9.67 == 40.09.
Proof.
  split; [|repeat split; vm_compute; reflexivity].
  intros x. split.
  - intros [Hfeas Hbest] i Hi.
    specialize (Hbest _ knapsack_reported_feasible).
    rewrite knapsack_model_eq in Hbest. cbn [ModelSense] in Hbest.
    rewrite <- knapsack_model_eq, !ObjVal_eq, reported_value in Hbest.
    destruct (feasible_bounded x Hfeas) as [_ Hsel].
    rewrite <- (Hsel Hbest).
    apply agrees_with_selected; [done|].
    apply knapsack_feasible_iff in Hfeas. by apply Hfeas.
  - intros Hx.
    assert (feasible model x) as Hfeas
      by (apply (feasible_ext x _ Hx), knapsack_reported_feasible).
    split; [done|]. intros y Hy.
    rewrite knapsack_model_eq. cbn [ModelSense]. rewrite <- knapsack_model_eq, !ObjVal_eq.
    rewrite (total_value_ext x _ Hx), reported_value.
    by apply feasible_bounded.
Qed.

(** C2.  A subset of the items whose total weight is within the capacity
    26.66 has a total value of at most 40.09. *)
Theorem optimum_bounds_feasible_subsets (S : gset nat) :
  S ⊆ list_to_set I → weight_of S <= b → value_of S <= 40.09.
Proof.
  intros HS Hfit. unfold weight_of, value_of in *.
  pose proof (subset_as_sublist S HS) as Hperm.
  rewrite (sum_over_Permutation _ _ _ Hperm) in Hfit.
  rewrite (sum_over_Permutation _ _ _ Hperm).
  by apply sublist_bounded; [apply filter_sublist|].
Qed.

Lemma optimum_bounds_feasible_subsets_witness :
  value_of {[1; 4; 10]}%nat <= 40.09.
Proof.
  apply (optimum_bounds_feasible_subsets {[1; 4; 10]}%nat).
  - apply (bool_decide_eq_true_1 _). vm_compute. reflexivity.
  - vm_compute. discriminate.
Defined.

(** C3.  An assignment that satisfies the model (binary variables and the
    capacity constraint, its only constraint) has a total selected weight of
    at most [b]; the recorded selection is such an assignment, and its weight
    5.76 + 6.11 + 1.64 + 1.78 + 1.18 + 8.0 is 24.47, below 26.66. *)
Theorem capacity_respected :
  (∀ x, feasible model x → total_weight x <= b) ∧
  feasible model (indicator reported) ∧
  total_weight (indicator reported) == 24.47 ∧
  sum_over reported (at_key w)
    = 5.76 + (6.11 + (1.64 + (1.78 + (1.18 + (8.0 + 0))))) ∧
  5.76 + 6.11 + 1.64 + 1.78 + 1.18 + 8.0 == 24.47 ∧
  24.47 <= 26.66 ∧ b = 26.66.
Proof.
  split; [by intros x [_ ?]%knapsack_feasible_iff|].
  split; [apply knapsack_reported_feasible|].
  repeat split; vm_compute; (reflexivity || discriminate).
Qed.

(** C6.  The cells build the formulation and nothing more: one binary
    variable per item, the objective "maximize the sum of [v i * X i]", and
    the single constraint "the sum of [w i * X i] is at most [b]". *)
Theorem model_is_the_formulation :
  build = Some (X, model) ∧
  dom X = list_to_set I ∧
  model_vars model = (λ i, (i, BINARY)) <$> I ∧
  ModelSense model = MAXIMIZE ∧
  (∀ x, ObjVal model x = sum_over I (λ i, at_key v i * x i)) ∧
  (∃ lhs,
     model_constrs model =
       [mkConstr "capacity_constraint" (mkTempConstr lhs LESS_EQUAL b)] ∧
     ∀ x, value lhs x = sum_over I (λ i, at_key w i * x i)) ∧
  (∀ x, feasible model x ↔
        (∀ i, i ∈ I → x i == 0 ∨ x i == 1) ∧
        sum_over I (λ i, at_key w i * x i) <= b).
Proof.
  split; [unfold X, model; by rewrite knapsack_build_eq|].
  split; [unfold X; rewrite knapsack_build_eq; vm_compute; reflexivity|].
  split; [by rewrite knapsack_model_eq|].
  split; [by rewrite knapsack_model_eq|].
  split; [apply ObjVal_eq|].
  split; [|apply knapsack_feasible_iff].
  eexists. rewrite knapsack_model_eq. split; [reflexivity|].
  intros x. apply value_fmap.
Qed.

(** C7.  The item set is 1..10; the value and the weight dictionaries have
    exactly the items as keys; every value and every weight is positive; the
    capacity is not negative. *)
Theorem data_invariant :
  I = [1; 2; 3; 4; 5; 6; 7; 8; 9; 10]%nat ∧
  dom v = list_to_set I ∧ dom w = list_to_set I ∧
  (∀ i, i ∈ I → is_Some (v !! i) ∧ is_Some (w !! i)) ∧
  map_Forall (λ _ q, 0 < q) v ∧ map_Forall (λ _ q, 0 < q) w ∧
  b = 26.66 ∧ 0 <= b.
Proof.
  split; [reflexivity|].
  split; [vm_compute; reflexivity|].
  split; [vm_compute; reflexivity|].
  split.
  { apply Forall_forall. repeat constructor; by eexists. }
  split; [|split].
  1,2: apply map_Forall_to_list; vm_compute; repeat constructor.
  split; [reflexivity|]. vm_compute. discriminate.
Qed.

(** C9.  When every item variable is 0 or 1, the printing cell prints the
    two heading lines and then one line [ - Item i included] for each item
    set to 1, in ascending order of [i], and for no other item: on such
    values the test [X[i].x > 0.1] is the test "is 1". *)
Theorem report_prints_selection (x : assignment nat) :
  (∀ i, i ∈ I → binary (x i)) →
  report X x =
    Some (["Optimal Assignments"; "--------------------"]
            ++ (item_line <$> selected x I)) ∧
  (∀ i, i ∈ I → Py.gt (x i) 0.1 = true ↔ x i == 1) ∧
  (∀ i, i ∈ selected x I ↔ i ∈ I ∧ x i == 1) ∧
  StronglySorted lt (selected x I).
Proof.
  intros Hbin. split; [|split; [|split]].
  - unfold report. by rewrite (report_loop X x I _ knapsack_X_lookup Hbin).
  - intros i Hi. by apply gt_tenth_binary, Hbin.
  - intros i. unfold selected. rewrite list_elem_of_filter. tauto.
  - unfold selected. apply filter_StronglySorted.
    repeat constructor.
Qed.

Lemma report_prints_selection_witness :
  report X (indicator reported) =
    Some ["Optimal Assignments"; "--------------------";
          " - Item 2 included"; " - Item 3 included"; " - Item 5 included";
          " - Item 6 included"; " - Item 7 included"; " - Item 9 included"].
Proof.
  apply (report_prints_selection (indicator reported)).
  intros i _. apply indicator_binary.
Defined.

End KnapsackSpec.

(** ** Rows and columns that sum to one *)

Section one_hot.
Context {A : Type}.
Implicit Types (l : list A) (f : A → Q).

Lemma sum_over_binary_nonneg l f :
  (∀ a, a ∈ l → Gurobi.binary (f a)) → 0 <= sum_over l f.
Proof.
  induction l as [|a l IH]; intros Hbin; simpl; [lra|].
  assert (0 <= sum_over l f) by (apply IH; intros; apply Hbin; by right).
  destruct (Hbin a (list_elem_of_here _ _)) as [H0|H1]; lra.
Qed.

Lemma sum_over_binary_zero l f :
  (∀ a, a ∈ l → Gurobi.binary (f a)) → sum_over l f == 0 →
  ∀ a, a ∈ l → f a == 0.
Proof.
  induction l as [|a l IH]; intros Hbin Hsum a' Ha'; [by inversion Ha'|].
  simpl in Hsum.
  assert (0 <= sum_over l f)
    by (apply sum_over_binary_nonneg; intros; apply Hbin; by right).
  destruct (Hbin a (list_elem_of_here _ _)) as [H0|H1]; [|lra].
  apply elem_of_cons in Ha' as [->|Ha']; [done|].
  apply IH; [intros; apply Hbin; by right|lra|done].
Qed.

(** Binary numbers that sum to one: exactly one of them is one. *)
Lemma sum_over_binary_one l f :
  (∀ a, a ∈ l → Gurobi.binary (f a)) → sum_over l f == 1 →
  ∃ a, a ∈ l ∧ f a == 1 ∧ ∀ a', a' ∈ l → f a' == 1 → a' = a.
Proof.
  induction l as [|a l IH]; intros Hbin Hsum; simpl in Hsum; [lra|].
  assert (∀ a', a' ∈ l → Gurobi.binary (f a')) as Hbin'
    by (intros; apply Hbin; by right).
  destruct (Hbin a (list_elem_of_here _ _)) as [H0|H1].
  - destruct (IH Hbin') as (a0 & Hin & Hone & Huniq); [lra|].
    exists a0. split; [by right|]. split; [done|].
    intros a' [->|Ha']%elem_of_cons Ha1; [lra|by apply Huniq].
  - exists a. split; [by left|]. split; [done|].
    intros a' [->|Ha']%elem_of_cons Ha1; [done|].
    assert (f a' == 0)
      by (apply (sum_over_binary_zero l f); [done|lra|done]).
    lra.
Qed.

(** Conversely, a one-hot row sums to one. *)
Lemma sum_over_one_hot l f a :
  NoDup l → a ∈ l → f a == 1 → (∀ a', a' ∈ l → a' ≠ a → f a' == 0) →
  sum_over l f == 1.
Proof.
  induction 1 as [|a0 l Hnot Hnd IH]; intros Ha H1 H0; [by inversion Ha|].
  simpl. apply elem_of_cons in Ha as [->|Ha].
  - assert (sum_over l f == sum_over l (λ _, 0)) as Hz.
    { apply sum_over_ext. intros a' Ha'. apply H0; [by right|].
      intros ->. done. }
    assert (sum_over l (λ _ : A, 0) == 0) as Hz'
      by (clear; induction l; simpl; lra).
    lra.
  - assert (f a0 == 0) by (apply H0; [by left|]; intros ->; done).
    assert (sum_over l f == 1)
      by (apply IH; [done..|]; intros; apply H0; [by right|done]).
    lra.
Qed.

End one_hot.

Lemma sum_over_app {A} (l k : list A) f :
  sum_over (l ++ k) f == sum_over l f + sum_over k f.
Proof. induction l as [|a l IH]; simpl; lra. Qed.

Lemma elem_of_product {A B} (l : list A) (k : list B) a b :
  (a, b) ∈ Py.product l k ↔ a ∈ l ∧ b ∈ k.
Proof.
  unfold Py.product. rewrite list_elem_of_bind. split.
  - intros (a' & Hb & Ha'). apply list_elem_of_bind in Hb as (b' & Hab & Hb').
    apply list_elem_of_singleton in Hab. by simplify_eq.
  - intros [Ha Hb]. exists a. split; [|done].
    apply list_elem_of_bind. exists b. split; [|done]. by left.
Qed.

(** A sum over [itertools.product] is the double sum. *)
Lemma sum_over_product {A B} (l : list A) (k : list B) (g : A * B → Q) :
  sum_over (Py.product l k) g == sum_over l (λ a, sum_over k (λ b, g (a, b))).
Proof.
  unfold Py.product. induction l as [|a l IH]; simpl; [reflexivity|].
  rewrite sum_over_app, IH.
  assert (sum_over (k ≫= λ b, [(a, b)]) g == sum_over k (λ b, g (a, b))) as Hrow.
  { clear. induction k as [|b k IH]; simpl; [lra|].
    apply Qplus_comp; [reflexivity|exact IH]. }
  rewrite Hrow. reflexivity.
Qed.

Lemma sum_over_zeros {A} (l : list A) (g x : A → Q) :
  (∀ a, a ∈ l → x a == 0) → sum_over l (λ a, g a * x a) == 0.
Proof.
  induction l as [|a l IH]; intros Hx; simpl; [reflexivity|].
  rewrite (Hx a) by left. rewrite IH by (intros; apply Hx; by right). ring.
Qed.

(** A weighted sum over a one-hot row picks the weight of its one. *)
Lemma sum_over_pick {A} (l : list A) (g x : A → Q) a :
  NoDup l → a ∈ l → x a == 1 → (∀ a', a' ∈ l → a' ≠ a → x a' == 0) →
  sum_over l (λ a, g a * x a) == g a.
Proof.
  induction 1 as [|a0 l Hnot Hnd IH]; intros Ha H1 H0; [by inversion Ha|].
  simpl. apply elem_of_cons in Ha as [->|Ha].
  - rewrite sum_over_zeros, H1; [ring|].
    intros a' Ha'. apply H0; [by right|]. by intros ->.
  - rewrite (H0 a0); [|by left|by intros ->].
    rewrite IH; [ring|done..|]. intros; apply H0; [by right|done].
Qed.

Lemma sum_over_fmap {A B} (h : A → B) (l : list A) (g : B → Q) :
  sum_over (h <$> l) g = sum_over l (λ a, g (h a)).
Proof. induction l as [|a l IH]; simpl; [done|]. by f_equal. Qed.

Lemma zip_with_image {A B} (f : A → B) (l : list A) :
  zip l (f <$> l) = (λ a, (a, f a)) <$> l.
Proof. induction l as [|a l IH]; simpl; [done|]. by f_equal. Qed.

(** ** The assignment notebook: what it builds *)

Module AssignmentSpec.
Import Gurobi Assignment.

(** What the cells compute: 100 binary variables, the objective with the
    drawn costs, one constraint per task and then one per resource. *)
Lemma assignment_build_eq :
  build = Some
    (list_to_map ((λ k, (k, k)) <$> Py.product N M),
     mkModel "Assignment-Problem" ((λ k, (k, BINARY)) <$> Py.product N M)
       ((λ k, (at_key c k, k)) <$> Py.product N M) MINIMIZE
       ((task_constr <$> N) ++ (resource_constr <$> M))).
Proof. vm_compute. reflexivity. Qed.

Lemma assignment_model_eq :
  model =
    mkModel "Assignment-Problem" ((λ k, (k, BINARY)) <$> Py.product N M)
      ((λ k, (at_key c k, k)) <$> Py.product N M) MINIMIZE
      ((task_constr <$> N) ++ (resource_constr <$> M)).
Proof. unfold model. by rewrite assignment_build_eq. Qed.

Lemma sum_over_unit_coefficients {A} (l : list A) (k : A → nat * nat) x :
  value ((λ a, (1, k a)) <$> l) x == sum_over l (λ a, x (k a)).
Proof.
  rewrite value_fmap. apply sum_over_ext. intros a _. simpl. ring.
Qed.

(** Feasible for the model: every variable is 0 or 1, every task has its
    resources sum to one, every resource has its tasks sum to one. *)
Lemma assignment_feasible_iff x :
  feasible model x ↔
    (∀ i j, i ∈ M → j ∈ N → binary (x (i, j))) ∧
    (∀ j, j ∈ N → sum_over M (λ i, x (i, j)) == 1) ∧
    (∀ i, i ∈ M → sum_over N (λ j, x (i, j)) == 1).
Proof.
  unfold feasible. rewrite assignment_model_eq. cbn [model_vars model_constrs].
  rewrite Forall_fmap, Forall_app, !Forall_fmap, !Forall_forall.
  assert (∀ j, holds x (task_constr j) ↔ sum_over M (λ i, x (i, j)) == 1)
    as Htask.
  { intros j. unfold holds, task_constr.
    cbn [constr_body tc_sense tc_lhs tc_rhs].
    by rewrite sum_over_unit_coefficients. }
  assert (∀ i, holds x (resource_constr i) ↔ sum_over N (λ j, x (i, j)) == 1)
    as Hres.
  { intros i. unfold holds, resource_constr.
    cbn [constr_body tc_sense tc_lhs tc_rhs].
    by rewrite sum_over_unit_coefficients. }
  split.
  - intros (Hbin & HT & HR). split; [|split].
    + intros i j Hi Hj. apply (Hbin (i, j)).
      apply elem_of_product. split; [exact Hi|exact Hj].
    + intros j Hj. by apply Htask, HT.
    + intros i Hi. by apply Hres, HR.
  - intros (Hbin & HT & HR). split; [|split].
    + intros [i j] [Hi Hj]%elem_of_product. apply Hbin; [exact Hi|exact Hj].
    + intros j Hj. by apply Htask, HT.
    + intros i Hi. by apply Hres, HR.
Qed.

Lemma head_selected {A} (f : A → Q) (l : list A) a :
  a ∈ l → f a == 1 →
  ∃ a0, head (selected f l) = Some a0 ∧ a0 ∈ l ∧ f a0 == 1.
Proof.
  unfold selected. induction l as [|a' l IH]; intros Ha H1; [by inversion Ha|].
  rewrite filter_cons. case_decide as Hd.
  - exists a'. split; [done|]. split; [by left|done].
  - apply elem_of_cons in Ha as [->|Ha]; [done|].
    destruct (IH Ha H1) as (a0 & ? & ? & ?).
    exists a0. split; [done|]. split; [by right|done].
Qed.

Section matching.
Context (x : assignment (nat * nat)) (Hx : feasible model x).

Lemma row_one i :
  i ∈ M →
  task_given x i ∈ N ∧ x (i, task_given x i) == 1 ∧
  ∀ j, j ∈ N → x (i, j) == 1 → j = task_given x i.
Proof.
  intros Hi. apply assignment_feasible_iff in Hx as (Hbin & _ & Hrow).
  destruct (sum_over_binary_one N (λ j, x (i, j))) as (j0 & Hj0 & H1 & Huniq);
    [intros; by apply Hbin|by apply Hrow|].
  destruct (head_selected (λ j, x (i, j)) N j0 Hj0 H1) as (j1 & Hhead & Hj1 & H1').
  unfold task_given. rewrite Hhead. simpl.
  rewrite (Huniq j1 Hj1 H1'). done.
Qed.

Lemma column_one j :
  j ∈ N →
  ∃ i, i ∈ M ∧ x (i, j) == 1 ∧ ∀ i', i' ∈ M → x (i', j) == 1 → i' = i.
Proof.
  intros Hj. apply assignment_feasible_iff in Hx as (Hbin & Hcol & _).
  apply (sum_over_binary_one M (λ i, x (i, j)));
    [intros; by apply Hbin|by apply Hcol].
Qed.

Lemma task_given_inj i i' :
  i ∈ M → i' ∈ M → task_given x i = task_given x i' → i = i'.
Proof.
  intros Hi Hi' Heq.
  destruct (row_one i Hi) as (Hj & H1 & _).
  destruct (row_one i' Hi') as (_ & H1' & _).
  destruct (column_one _ Hj) as (i0 & _ & _ & Huniq).
  rewrite <- Heq in H1'.
  by rewrite (Huniq i Hi H1), (Huniq i' Hi' H1').
Qed.

Lemma task_given_surj j : j ∈ N → ∃ i, i ∈ M ∧ task_given x i = j.
Proof.
  intros Hj. destruct (column_one j Hj) as (i & Hi & H1 & _).
  exists i. split; [done|].
  destruct (row_one i Hi) as (_ & _ & Huniq). symmetry. by apply Huniq.
Qed.

Lemma induced_Permutation : induced x ≡ₚ N.
Proof.
  apply NoDup_Permutation.
  - apply NoDup_fmap_2_strong; [|apply NoDup_seq].
    intros i i' Hi Hi'. by apply task_given_inj.
  - apply NoDup_seq.
  - intros j. unfold induced. rewrite list_elem_of_fmap. split.
    + intros (i & -> & Hi). by apply row_one.
    + intros Hj. destruct (task_given_surj j Hj) as (i & Hi & <-). eauto.
Qed.

Lemma task_of_induced i : i ∈ M → task_of (induced x) i = Some (task_given x i).
Proof.
  intros Hi. apply elem_of_seq in Hi.
  unfold task_of, induced, M. rewrite list_lookup_fmap, lookup_seq_lt by lia.
  simpl. do 2 f_equal. lia.
Qed.

End matching.

(** C4.  In a 0/1 solution that satisfies every constraint of the model, the
    tasks given to resources 1, 2, ... form a rearrangement of the tasks:
    [x (i, j)] is one exactly for the task of [i], every resource has a
    task, no two resources share one, and every task is taken. *)
Theorem feasible_is_perfect_matching (x : assignment (nat * nat)) :
  feasible model x →
  let p := induced x in
  p ≡ₚ N ∧
  (∀ i j, i ∈ M → j ∈ N → x (i, j) == 1 ↔ task_of p i = Some j) ∧
  (∀ i, i ∈ M → ∃ j, j ∈ N ∧ task_of p i = Some j) ∧
  (∀ i i' j, i ∈ M → i' ∈ M →
     task_of p i = Some j → task_of p i' = Some j → i = i') ∧
  (∀ j, j ∈ N → ∃ i, i ∈ M ∧ task_of p i = Some j).
Proof.
  intros Hx p. subst p. split; [by apply induced_Permutation|].
  split; [|split; [|split]].
  - intros i j Hi Hj. rewrite (task_of_induced x i Hi).
    destruct (row_one x Hx i Hi) as (_ & H1 & Huniq). split.
    + intros Hij. f_equal. symmetry. by apply Huniq.
    + intros [= <-]. done.
  - intros i Hi. exists (task_given x i).
    split; [by apply row_one|by apply task_of_induced].
  - intros i i' j Hi Hi'. rewrite !task_of_induced by done.
    intros [= <-] [= Heq]. symmetry. by apply (task_given_inj x Hx).
  - intros j Hj. destruct (task_given_surj x Hx j Hj) as (i & Hi & <-).
    exists i. split; [done|by apply task_of_induced].
Qed.

Lemma as_assignment_binary p k : binary (as_assignment p k).
Proof. unfold as_assignment, binary. case_decide; [right|left]; reflexivity. Qed.

Lemma assignment_reported_feasible : feasible model (as_assignment reported).
Proof.
  apply assignment_feasible_iff. split; [intros; apply as_assignment_binary|].
  split; apply Forall_forall; repeat constructor; vm_compute; reflexivity.
Qed.

Lemma feasible_is_perfect_matching_witness :
  let p := induced (as_assignment reported) in
  p ≡ₚ N ∧
  (∀ i j, i ∈ M → j ∈ N →
     as_assignment reported (i, j) == 1 ↔ task_of p i = Some j) ∧
  (∀ i, i ∈ M → ∃ j, j ∈ N ∧ task_of p i = Some j) ∧
  (∀ i i' j, i ∈ M → i' ∈ M →
     task_of p i = Some j → task_of p i' = Some j → i = i') ∧
  (∀ j, j ∈ N → ∃ i, i ∈ M ∧ task_of p i = Some j).
Proof.
  apply (feasible_is_perfect_matching (as_assignment reported)).
  apply assignment_reported_feasible.
Defined.

(** *** The cost dictionary *)

Lemma draw_costs_state (draw : rng) (keys : list (nat * nat))
    (d : gmap (nat * nat) Q) (n : nat) :
  dom (foldl (λ (st : gmap (nat * nat) Q * nat) k,
                (<[k := draw st.2]> st.1, S st.2)) (d, n) keys).1
  = dom d ∪ list_to_set keys.
Proof.
  revert d n. induction keys as [|k keys IH]; intros d n; simpl.
  - by rewrite (right_id_L ∅ (∪)).
  - rewrite IH. simpl. rewrite dom_insert_L.
    by rewrite (comm_L (∪) {[k]} (dom d)), (assoc_L (∪)).
Qed.

Lemma dom_draw_costs (draw : rng) (keys : list (nat * nat)) :
  dom (draw_costs draw keys) = list_to_set keys.
Proof.
  unfold draw_costs. rewrite draw_costs_state.
  by rewrite dom_empty_L, (left_id_L ∅ (∪)).
Qed.

Lemma product_row {A B} (a : A) (k : list B) :
  (k ≫= λ b, [(a, b)]) = pair a <$> k.
Proof. induction k as [|b k IH]; [done|]. rewrite bind_cons, IH. done. Qed.

Lemma NoDup_product {A B} (l : list A) (k : list B) :
  NoDup l → NoDup k → NoDup (Py.product l k).
Proof.
  intros Hl Hk. unfold Py.product.
  induction Hl as [|a l Ha Hl IH]; [constructor|].
  rewrite bind_cons, product_row. apply NoDup_app. split; [|split; [|done]].
  - apply NoDup_fmap_2; [|done]. by intros b b' [= ->].
  - intros [a' b'] (b & [= -> ->] & _)%list_elem_of_fmap Hin'.
    apply (elem_of_product l k a b) in Hin' as [? _]. done.
Qed.

Lemma length_product {A B} (l : list A) (k : list B) :
  length (Py.product l k) = (length l * length k)%nat.
Proof.
  unfold Py.product. induction l as [|a l IH]; [done|].
  rewrite bind_cons, product_row, length_app, length_fmap, IH. done.
Qed.

(** C8.  The resources and the tasks are both 1..10, so of equal size; the
    cost dictionary, whatever numbers the generator returns, has exactly the
    pairs of M x N as keys: a cost for every pair, 100 entries in all. *)
Theorem cost_matrix_dense (draw : rng) :
  let costs := draw_costs draw (Py.product M N) in
  M = [1; 2; 3; 4; 5; 6; 7; 8; 9; 10]%nat ∧
  N = [1; 2; 3; 4; 5; 6; 7; 8; 9; 10]%nat ∧
  length M = length N ∧
  (∀ i j, is_Some (costs !! (i, j)) ↔ i ∈ M ∧ j ∈ N) ∧
  dom costs = list_to_set (Py.product M N) ∧
  size costs = 100%nat ∧
  c = draw_costs seed_0 (Py.product M N).
Proof.
  intros costs. subst costs.
  split; [reflexivity|]. split; [reflexivity|]. split; [reflexivity|].
  split; [|split; [apply dom_draw_costs|split; [|reflexivity]]].
  - intros i j. rewrite <- elem_of_dom, dom_draw_costs, elem_of_list_to_set.
    apply elem_of_product.
  - rewrite <- size_dom, dom_draw_costs, size_list_to_set.
    + by rewrite length_product.
    + apply NoDup_product; apply NoDup_seq.
Qed.

(** *** The cheapest matching *)

#[local] Opaque c.

(** The prices fit each of the 100 pairs. *)
Lemma all_pairs_priced : forallb priced (Py.product M N) = true.
Proof. vm_compute. reflexivity. Qed.

Lemma slack_cases i j :
  i ∈ M → j ∈ N →
  (task_of reported i = Some j ∧ slack (i, j) == 0) ∨
  (task_of reported i ≠ Some j ∧ margin <= slack (i, j)).
Proof.
  intros Hi Hj. pose proof all_pairs_priced as Hall.
  rewrite forallb_forall in Hall.
  assert (priced (i, j) = true) as Hij
    by (apply Hall, list_elem_of_In, elem_of_product; done).
  unfold priced in Hij. cbn [fst snd] in Hij. case_decide.
  - left. split; [done|]. by apply Qeq_bool_iff.
  - right. split; [done|]. by apply Qle_bool_iff.
Qed.

Lemma slack_nonneg i j : i ∈ M → j ∈ N → 0 <= slack (i, j).
Proof.
  intros Hi Hj. destruct (slack_cases i j Hi Hj) as [[_ H0]|[_ Hm]].
  - rewrite H0. lra.
  - unfold margin in Hm. lra.
Qed.

Lemma sum_over_zip_split {A B} (l : list A) (k : list B) f g h :
  length l = length k →
  sum_over (zip l k) (λ ab, f ab.1 + g ab.2 + h ab)
  == sum_over l f + sum_over k g + sum_over (zip l k) h.
Proof.
  revert k. induction l as [|a l IH]; intros [|b k] Hlen; simplify_eq/=.
  - lra.
  - specialize (IH k Hlen). lra.
Qed.

Lemma sum_over_nonneg {A} (l : list A) f :
  (∀ a, a ∈ l → 0 <= f a) → 0 <= sum_over l f.
Proof.
  induction l as [|a l IH]; intros Hf; simpl; [lra|].
  assert (0 <= sum_over l f) by (apply IH; intros; apply Hf; by right).
  pose proof (Hf a (list_elem_of_here _ _)). lra.
Qed.

Lemma sum_over_nonneg_bound {A} (l : list A) f a :
  (∀ a, a ∈ l → 0 <= f a) → a ∈ l → f a <= sum_over l f.
Proof.
  induction l as [|a' l IH]; intros Hf Ha; [by inversion Ha|]. simpl.
  assert (0 <= sum_over l f)
    by (apply sum_over_nonneg; intros; apply Hf; by right).
  pose proof (Hf a' (list_elem_of_here _ _)).
  apply elem_of_cons in Ha as [->|Ha]; [lra|].
  assert (f a <= sum_over l f)
    by (apply IH; [intros; apply Hf; by right|done]).
  lra.
Qed.

Lemma cost_split p :
  p ≡ₚ N → cost p == total_price + sum_over (zip M p) slack.
Proof.
  intros Hp. unfold cost, total_price.
  pose proof (sum_over_Permutation _ _ task_price Hp) as Hprices.
  pose proof (sum_over_zip_split M p resource_price task_price slack) as Hsplit.
  assert (sum_over (zip M p) (at_key c)
          == sum_over (zip M p)
               (λ ab, resource_price ab.1 + task_price ab.2 + slack ab))
    as Hterms.
  { apply sum_over_ext. intros ij _. unfold slack. ring. }
  rewrite (Permutation_length Hp) in Hsplit.
  specialize (Hsplit eq_refl). lra.
Qed.

Lemma zip_members p i j : p ≡ₚ N → (i, j) ∈ zip M p → i ∈ M ∧ j ∈ N.
Proof.
  intros Hp Hin. split; [by apply elem_of_zip_l in Hin|].
  apply elem_of_zip_r in Hin. by rewrite <- Hp.
Qed.

Lemma reported_Permutation : reported ≡ₚ N.
Proof.
  apply NoDup_Permutation; [|apply NoDup_seq|].
  - apply (bool_decide_eq_true_1 (NoDup reported)). vm_compute. reflexivity.
  - intros j. split; intros Hj.
    + revert j Hj. apply Forall_forall. repeat constructor.
    + revert j Hj. apply Forall_forall.
      repeat first [apply Forall_nil_2|apply Forall_cons_2].
      all: apply (bool_decide_eq_true_1 _); vm_compute; reflexivity.
Qed.

Lemma reported_cost : cost reported == total_price.
Proof. vm_compute. reflexivity. Qed.

(** No matching is cheaper than the recorded one. *)
Lemma reported_cheapest p : p ≡ₚ N → cost reported <= cost p.
Proof.
  intros Hp. rewrite reported_cost, (cost_split p Hp).
  assert (0 <= sum_over (zip M p) slack); [|lra].
  apply sum_over_nonneg. intros [i j] [Hi Hj]%(zip_members p); [|done].
  by apply slack_nonneg.
Qed.

(** A matching whose total slack is below the margin is the recorded one. *)
Lemma small_slack_is_reported p :
  p ≡ₚ N → sum_over (zip M p) slack < margin → p = reported.
Proof.
  intros Hp Hlt.
  assert (∀ ij, ij ∈ zip M p → 0 <= slack ij) as Hnn.
  { intros [i j] [Hi Hj]%(zip_members p); [|done]. by apply slack_nonneg. }
  assert (∀ i j, (i, j) ∈ zip M p → task_of reported i = Some j) as Hsame.
  { intros i j Hin.
    pose proof (sum_over_nonneg_bound _ slack _ Hnn Hin) as Hb.
    destruct (zip_members p i j Hp Hin) as [Hi Hj].
    destruct (slack_cases i j Hi Hj) as [[? _]|[_ Hm]]; [done|]. lra. }
  apply list_eq. intros k.
  destruct (p !! k) as [j|] eqn:Hk.
  - assert (k < SIZE)%nat as Hk'.
    { apply lookup_lt_Some in Hk. by rewrite (Permutation_length Hp) in Hk. }
    assert ((S k, j) ∈ zip M p) as Hin.
    { apply list_elem_of_lookup. exists k.
      rewrite lookup_zip_with. unfold M. rewrite lookup_seq_lt by done.
      simpl. by rewrite Hk. }
    apply Hsame in Hin. unfold task_of in Hin. simpl in Hin.
    by rewrite Nat.sub_0_r in Hin.
  - apply lookup_ge_None in Hk. rewrite (Permutation_length Hp) in Hk.
    symmetry. apply lookup_ge_None.
    by rewrite (Permutation_length reported_Permutation).
Qed.

Lemma cheapest_is_reported p :
  p ≡ₚ N → cost p <= cost reported → p = reported.
Proof.
  intros Hp Hle. rewrite reported_cost, (cost_split p Hp) in Hle.
  apply small_slack_is_reported; [done|]. unfold margin. lra.
Qed.

(** *** Matchings and solutions of the model *)

(** The objective of a feasible assignment is the cost of its matching. *)
Lemma ObjVal_feasible x :
  feasible model x → ObjVal model x == cost (induced x).
Proof.
  intros Hx. unfold ObjVal, cost, induced.
  rewrite assignment_model_eq. cbn [model_obj].
  rewrite value_fmap, sum_over_product, zip_with_image, sum_over_fmap.
  apply sum_over_ext. intros i Hi.
  destruct (row_one x Hx i Hi) as (Hj & H1 & Huniq).
  apply (sum_over_pick M (λ j, at_key c (i, j)) (λ j, x (i, j)));
    [apply NoDup_seq|done..|].
  intros j Hj' Hne.
  pose proof Hx as (Hbin & _)%assignment_feasible_iff.
  destruct (Hbin i j Hi Hj') as [H0|H1']; [done|].
  destruct Hne. by apply Huniq.
Qed.

Lemma task_of_lookup p i j :
  p ≡ₚ N → task_of p i = Some j → i ∈ M → j ∈ N.
Proof.
  intros Hp Hij _. rewrite <- Hp. unfold task_of in Hij.
  by apply list_elem_of_lookup_2 in Hij.
Qed.

(** Every way of giving each resource its own task is feasible. *)
Lemma matching_feasible p : p ≡ₚ N → feasible model (as_assignment p).
Proof.
  intros Hp. apply assignment_feasible_iff.
  assert (NoDup p) as Hnd by (rewrite Hp; apply NoDup_seq).
  assert (length p = SIZE) as Hlen
    by (rewrite (Permutation_length Hp); apply length_seq).
  split; [intros; apply as_assignment_binary|]. split.
  - intros j Hj. rewrite <- Hp in Hj.
    apply list_elem_of_lookup in Hj as [k Hk].
    assert (k < SIZE)%nat as Hk' by (rewrite <- Hlen; by eapply lookup_lt_Some).
    apply (sum_over_one_hot M _ (S k)); [apply NoDup_seq|..].
    + apply elem_of_seq. lia.
    + unfold as_assignment, task_of. cbn [fst snd].
      rewrite decide_True; [reflexivity|]. simpl. by rewrite Nat.sub_0_r.
    + intros i Hi Hne. unfold as_assignment, task_of. cbn [fst snd].
      rewrite decide_False; [reflexivity|]. intros Hi'.
      apply elem_of_seq in Hi.
      pose proof (NoDup_lookup _ _ _ _ Hnd Hi' Hk). lia.
  - intros i Hi. apply elem_of_seq in Hi.
    destruct (lookup_lt_is_Some_2 p (i - 1)) as [j0 Hj0]; [lia|].
    apply (sum_over_one_hot N _ j0); [apply NoDup_seq|..].
    + rewrite <- Hp. by eapply list_elem_of_lookup_2.
    + unfold as_assignment, task_of. cbn [fst snd].
      by rewrite decide_True.
    + intros j Hj Hne. unfold as_assignment, task_of. cbn [fst snd].
      rewrite decide_False; [reflexivity|]. congruence.
Qed.

Lemma induced_matching p : p ≡ₚ N → induced (as_assignment p) = p.
Proof.
  intros Hp. pose proof (matching_feasible p Hp) as Hfeas.
  assert (length p = SIZE) as Hlen
    by (rewrite (Permutation_length Hp); apply length_seq).
  apply list_eq. intros k. unfold induced, M.
  rewrite list_lookup_fmap.
  destruct (decide (k < SIZE)%nat) as [Hk|Hk].
  - rewrite lookup_seq_lt by done. simpl.
    destruct (lookup_lt_is_Some_2 p k) as [j Hj]; [lia|].
    rewrite Hj. f_equal. symmetry.
    apply (row_one _ Hfeas (S k)); [apply elem_of_seq; lia|..].
    + rewrite <- Hp. by eapply list_elem_of_lookup_2.
    + unfold as_assignment, task_of. cbn [fst snd].
      rewrite decide_True; [reflexivity|]. simpl. by rewrite Nat.sub_0_r.
  - rewrite lookup_seq_ge by lia. simpl. symmetry.
    apply lookup_ge_None. lia.
Qed.

Lemma ObjVal_matching p : p ≡ₚ N → ObjVal model (as_assignment p) == cost p.
Proof.
  intros Hp. rewrite (ObjVal_feasible _ (matching_feasible p Hp)).
  by rewrite (induced_matching p Hp).
Qed.

Lemma reported_optimal : optimal model (as_assignment reported).
Proof.
  split; [apply matching_feasible, reported_Permutation|].
  intros y Hy. rewrite assignment_model_eq. cbn [ModelSense].
  rewrite <- assignment_model_eq.
  rewrite (ObjVal_matching _ reported_Permutation), (ObjVal_feasible y Hy).
  apply reported_cheapest. by apply induced_Permutation.
Qed.

Lemma optimal_is_reported x i j :
  optimal model x → i ∈ M → j ∈ N → x (i, j) == as_assignment reported (i, j).
Proof.
  intros [Hx Hbest] Hi Hj.
  specialize (Hbest _ (matching_feasible _ reported_Permutation)).
  rewrite assignment_model_eq in Hbest. cbn [ModelSense] in Hbest.
  rewrite <- assignment_model_eq in Hbest.
  rewrite (ObjVal_matching _ reported_Permutation), (ObjVal_feasible x Hx)
    in Hbest.
  apply cheapest_is_reported in Hbest; [|by apply induced_Permutation].
  destruct (row_one x Hx i Hi) as (_ & H1 & Huniq).
  pose proof (task_of_induced x i Hi) as Htask. rewrite Hbest in Htask.
  pose proof Hx as (Hbin & _)%assignment_feasible_iff.
  unfold as_assignment. cbn [fst snd]. case_decide as Hd.
  - rewrite Htask in Hd. injection Hd as <-. done.
  - destruct (Hbin i j Hi Hj) as [H0|H1']; [done|].
    destruct Hd. rewrite Htask. f_equal. symmetry. by apply Huniq.
Qed.

(** *** Costs known up to rounding *)

Lemma sum_over_near {A} (l : list A) (f g : A → Q) (e : Q) :
  (∀ a, a ∈ l → - e <= f a - g a ∧ f a - g a <= e) →
  - nfold (length l) e <= sum_over l f - sum_over l g ∧
  sum_over l f - sum_over l g <= nfold (length l) e.
Proof.
  induction l as [|a l IH]; intros Hfg; simpl; [lra|].
  destruct (Hfg a (list_elem_of_here _ _)) as [Hlo Hhi].
  destruct IH as [IHlo IHhi]; [intros; apply Hfg; by right|]. lra.
Qed.

Lemma cost_near c' p :
  near c' → p ≡ₚ N →
  - 0.03 <= sum_over (zip M p) c' - cost p ∧
  sum_over (zip M p) c' - cost p <= 0.03.
Proof.
  intros Hc Hp.
  assert (length (zip M p) = 10%nat) as Hlen.
  { rewrite length_zip_with, (Permutation_length Hp). reflexivity. }
  destruct (sum_over_near (zip M p) c' (at_key c) rounding) as [Hlo Hhi].
  { intros [i j] [Hi Hj]%(zip_members p); [|done]. by apply Hc. }
  rewrite Hlen in Hlo, Hhi. unfold cost.
  assert (nfold 10 rounding == 0.03) as Hten by (vm_compute; reflexivity).
  lra.
Qed.

(** X15.  The recorded matching stays the cheapest, and the only one that
    cheap, when every cost is moved by at most 0.003 from the decimal the
    notebook displays; so reading the displayed decimals in place of the
    binary floats behind them does not change the optimum. *)
Theorem reported_cheapest_near c' p :
  near c' → p ≡ₚ N →
  (sum_over (zip M p) c' <= sum_over (zip M reported) c' → p = reported) ∧
  sum_over (zip M reported) c' <= sum_over (zip M p) c'.
Proof.
  intros Hc Hp.
  assert (sum_over (zip M p) c' <= sum_over (zip M reported) c'
          → p = reported) as Honly.
  { intros Hle.
    destruct (cost_near c' p Hc Hp) as [Hp1 Hp2].
    destruct (cost_near c' reported Hc reported_Permutation) as [Hr1 Hr2].
    pose proof (cost_split p Hp) as Hsplit.
    pose proof reported_cost as Hrep.
    apply small_slack_is_reported; [done|]. unfold margin. lra. }
  split; [done|].
  destruct (Qlt_le_dec (sum_over (zip M reported) c') (sum_over (zip M p) c'))
    as [Hlt|Hle]; [lra|].
  rewrite (Honly Hle). lra.
Qed.

(** C5.  On the costs of the recorded run, the matching 1 to 10, 2 to 7,
    3 to 5, 4 to 1, 5 to 9, 6 to 4, 7 to 2, 8 to 6, 9 to 3, 10 to 8 is a
    rearrangement of the tasks, costs 14.3778 to four decimals, costs no
    more than any other way [p] of giving each resource its own task, and is
    the only one that cheap.  In terms of the model: its assignment is an
    optimal solution, with that cost as objective value, and every optimal
    solution agrees with it on all the variables. *)
Theorem reported_matching_is_minimum (p : list nat) :
  p ≡ₚ N →
  reported = [10; 7; 5; 1; 9; 4; 2; 6; 3; 8]%nat ∧
  reported ≡ₚ N ∧
  cost reported == 14.37781091866779297 ∧
  14.37775 <= cost reported ∧ cost reported < 14.37785 ∧
  cost reported <= cost p ∧
  (cost p <= cost reported → p = reported) ∧
  ObjVal model (as_assignment p) == cost p ∧
  optimal model (as_assignment reported) ∧
  (∀ x, optimal model x →
        ∀ i j, i ∈ M → j ∈ N → x (i, j) == as_assignment reported (i, j)).
Proof.
  intros Hp. split; [reflexivity|]. split; [apply reported_Permutation|].
  assert (cost reported == 14.37781091866779297) as Hcost
    by (vm_compute; reflexivity).
  split; [done|]. split; [lra|]. split; [lra|].
  split; [by apply reported_cheapest|].
  split; [by apply cheapest_is_reported|].
  split; [by apply ObjVal_matching|].
  split; [apply reported_optimal|].
  intros x Hx i j. by apply optimal_is_reported.
Qed.

Lemma reported_matching_is_minimum_witness :
  cost reported <= cost [1; 2; 3; 4; 5; 6; 7; 8; 9; 10]%nat.
Proof.
  assert ([1; 2; 3; 4; 5; 6; 7; 8; 9; 10]%nat ≡ₚ N) as Hp by reflexivity.
  destruct (reported_matching_is_minimum _ Hp) as (_ & _ & _ & _ & _ & H & _).
  exact H.
Defined.

(** *** The printing cell *)

Lemma X_eq : X = list_to_map ((λ k, (k, k)) <$> Py.product N M).
Proof. unfold X. by rewrite assignment_build_eq. Qed.

Lemma assignment_X_lookup i j : i ∈ M → j ∈ N → X !! (i, j) = Some (i, j).
Proof.
  intros Hi Hj. rewrite X_eq.
  apply lookup_key_dict, elem_of_product. split; [exact Hi|exact Hj].
Qed.

Lemma gt_tenth_one q : q == 1 → Py.gt q 0.1 = true.
Proof.
  intros H1. unfold Py.gt. apply negb_true_iff.
  destruct (Qle_bool q 0.1) eqn:Hle; [|done].
  apply Qle_bool_iff in Hle. lra.
Qed.

Lemma gt_tenth_zero q : q == 0 → Py.gt q 0.1 = false.
Proof.
  intros H0. unfold Py.gt. apply negb_false_iff, Qle_bool_iff. lra.
Qed.

Lemma report_unfold D x :
  report D x =
    Py.for_in M (λ i out, Py.for_in_break N (scan D x i) out)
      ["Optimal Assignments"; Py.repeat_str "-" 20].
Proof. reflexivity. Qed.

Section loops.
Context (D : tupledict (nat * nat)) (x : assignment (nat * nat)).
Context (HD : ∀ i j, i ∈ M → j ∈ N → D !! (i, j) = Some (i, j)).

Lemma scan_eq i j out :
  D !! (i, j) = Some (i, j) →
  scan D x i j out =
    if Py.gt (x (i, j)) 0.1
    then Some (Py.Break (out ++ [pair_line i j]))
    else Some (Py.Continue out).
Proof. intros Hij. unfold scan, Var in *. by rewrite Hij. Qed.

(** The inner loop stops at the first task above the threshold: it adds
    the line of the one task set to one, and no other. *)
Lemma inner_loop_one_hot i j0 js out :
  (∀ j, j ∈ js → D !! (i, j) = Some (i, j)) →
  j0 ∈ js → x (i, j0) == 1 →
  (∀ j, j ∈ js → j ≠ j0 → x (i, j) == 0) →
  Py.for_in_break js (scan D x i) out = Some (out ++ [pair_line i j0]).
Proof.
  intros HX Hin H1 H0.
  induction js as [|j js IH]; [by inversion Hin|].
  cbn [Py.for_in_break]. rewrite scan_eq by (apply HX; left).
  destruct (decide (j = j0)) as [->|Hne].
  - by rewrite (gt_tenth_one _ H1).
  - rewrite (gt_tenth_zero (x (i, j))) by (apply H0; [by left|done]).
    cbn [mbind option_bind].
    apply elem_of_cons in Hin as [->|Hin]; [done|].
    apply IH; [intros; apply HX; by right|done|].
    intros; apply H0; [by right|done].
Qed.

(** Whatever the values, the inner loop adds at most one line. *)
Lemma inner_loop_at_most_one i js out :
  (∀ j, j ∈ js → D !! (i, j) = Some (i, j)) →
  ∃ out', Py.for_in_break js (scan D x i) out = Some out' ∧
          (out' = out ∨ ∃ j, j ∈ js ∧ out' = out ++ [pair_line i j]).
Proof.
  intros HX. induction js as [|j js IH]; cbn [Py.for_in_break]; [eauto|].
  rewrite scan_eq by (apply HX; left).
  destruct (Py.gt (x (i, j)) 0.1); cbn [mbind option_bind].
  - eexists. split; [done|]. right. exists j. split; [by left|done].
  - destruct IH as (out' & -> & Hout'); [intros; apply HX; by right|].
    exists out'. split; [done|].
    destruct Hout' as [->|(j' & ? & ->)]; [by left|].
    right. exists j'. split; [by right|done].
Qed.

Lemma outer_loop_at_most_one (rs : list nat) out :
  (∀ i, i ∈ rs → i ∈ M) →
  ∃ out', Py.for_in rs (λ i out, Py.for_in_break N (scan D x i) out) out
          = Some out' ∧
          (length out' ≤ length out + length rs)%nat.
Proof.
  revert out. induction rs as [|i rs IH]; intros out His; cbn [Py.for_in].
  - exists out. split; [done|simpl; lia].
  - destruct (inner_loop_at_most_one i N out) as (out1 & -> & Hout1);
      [intros; apply HD; [apply His; by left|done]|].
    cbn [mbind option_bind]. destruct (IH out1) as (out' & -> & Hlen);
      [intros; apply His; by right|].
    exists out'. split; [done|].
    destruct Hout1 as [->|(j & _ & ->)]; [simpl; lia|].
    rewrite length_app in Hlen. simpl in *. lia.
Qed.

Lemma outer_loop_one_hot (f : nat → nat) (rs : list nat) out :
  (∀ i, i ∈ rs →
     i ∈ M ∧ f i ∈ N ∧ x (i, f i) == 1 ∧
     ∀ j, j ∈ N → j ≠ f i → x (i, j) == 0) →
  Py.for_in rs (λ i out, Py.for_in_break N (scan D x i) out) out
  = Some (out ++ ((λ i, pair_line i (f i)) <$> rs)).
Proof.
  revert out. induction rs as [|i rs IH]; intros out His; cbn [Py.for_in].
  - by rewrite app_nil_r.
  - destruct (His i) as (Hi & Hf & H1 & H0); [by left|].
    rewrite (inner_loop_one_hot i (f i) N out);
      [|intros; by apply HD|done..].
    cbn [mbind option_bind]. rewrite IH by (intros; apply His; by right).
    by rewrite fmap_cons, <- app_assoc.
Qed.

End loops.

(** C10.  When every resource [i] has one task [f i] with [X[i, f i]] equal
    to one and its other variables equal to zero, the printing cell prints
    the two heading lines and then exactly one line per resource, in the
    order of the resources, naming [f i].  Whatever the values, the [break]
    keeps the printout to at most one line per resource. *)
Theorem report_prints_one_line_per_resource
    (x : assignment (nat * nat)) (f : nat → nat) :
  (∀ i, i ∈ M →
     f i ∈ N ∧ x (i, f i) == 1 ∧ ∀ j, j ∈ N → j ≠ f i → x (i, j) == 0) →
  report X x =
    Some (["Optimal Assignments"; "--------------------"]
            ++ ((λ i, pair_line i (f i)) <$> M)) ∧
  (∀ y, ∃ out, report X y = Some out ∧ (length out ≤ 2 + length M)%nat).
Proof.
  intros Hf. split.
  - rewrite report_unfold, (outer_loop_one_hot X x assignment_X_lookup f); [done|].
    intros i Hi. split; [done|by apply Hf].
  - intros y. rewrite report_unfold.
    destruct (outer_loop_at_most_one X y assignment_X_lookup M
                ["Optimal Assignments"; Py.repeat_str "-" 20])
      as (out & -> & Hlen); [done|].
    exists out. split; [done|]. exact Hlen.
Qed.

Lemma report_prints_one_line_per_resource_witness :
  report X (as_assignment reported) =
    Some ["Optimal Assignments"; "--------------------";
          " - Resource 1 -> Task 10"; " - Resource 2 -> Task 7";
          " - Resource 3 -> Task 5"; " - Resource 4 -> Task 1";
          " - Resource 5 -> Task 9"; " - Resource 6 -> Task 4";
          " - Resource 7 -> Task 2"; " - Resource 8 -> Task 6";
          " - Resource 9 -> Task 3"; " - Resource 10 -> Task 8"].
Proof.
  apply (report_prints_one_line_per_resource (as_assignment reported)
           (λ i, default 0%nat (task_of reported i))).
  apply Forall_forall.
  repeat first [apply Forall_nil_2|apply Forall_cons_2].
  all: split; [apply (bool_decide_eq_true_1 _); vm_compute; reflexivity|].
  all: split; [vm_compute; reflexivity|].
  all: refine (proj1 (Forall_forall (λ j, j ≠ _ → _ == 0) N) _).
  all: repeat first [apply Forall_nil_2|apply Forall_cons_2].
  all: intros Hne; first [vm_compute; reflexivity|exfalso; by apply Hne].
Defined.

End AssignmentSpec.

(** ** The cells on any data *)

Module CellsSpec.
Import Gurobi Cells.

(** *** Loops *)

Lemma for_in_app {A S} (l k : list A) (body : A → S → option S) s :
  Py.for_in (l ++ k) body s = s' ← Py.for_in l body s; Py.for_in k body s'.
Proof.
  revert s. induction l as [|a l IH]; intros s; [done|].
  cbn [app Py.for_in]. destruct (body a s) as [s1|]; [|done]. apply IH.
Qed.

(** Two nested loops are one loop over [itertools.product]. *)
Lemma for_in_product {A B S} (l : list A) (k : list B)
    (body : A * B → S → option S) s :
  Py.for_in l (λ a s, Py.for_in k (λ b s, body (a, b) s) s) s
  = Py.for_in (Py.product l k) body s.
Proof.
  revert s. induction l as [|a l IH]; intros s; [done|].
  unfold Py.product. rewrite bind_cons, for_in_app. cbn [Py.for_in].
  assert (Py.for_in (k ≫= λ b, [(a, b)]) body s
          = Py.for_in k (λ b s, body (a, b) s) s) as ->.
  { clear. revert s. induction k as [|b k IH]; intros s; [done|].
    rewrite bind_cons. cbn [app Py.for_in].
    destruct (body (a, b) s); [apply IH|done]. }
  destruct (Py.for_in k _ s); [apply IH|done].
Qed.

Section term_loop.
Context `{Countable K}.
Implicit Types (q : gmap K Q) (D : gmap K K) (l : list K).

Lemma term_loop_Some q D l e :
  (∀ k, k ∈ l → is_Some (q !! k) ∧ D !! k = Some k) →
  term_loop q D l e = Some (e ++ ((λ k, (at_key q k, k)) <$> l)).
Proof.
  unfold term_loop, Var. revert e.
  induction l as [|k l IH]; intros e Hl; cbn [Py.for_in fmap list_fmap].
  - by rewrite app_nil_r.
  - destruct (Hl k) as [[qk Hq] HD]; [by left|].
    rewrite Hq. cbn [mbind option_bind]. rewrite HD. cbn [mbind option_bind].
    rewrite IH by (intros; apply Hl; by right).
    unfold add, times, at_key. rewrite Hq. cbn [default].
    by rewrite <- app_assoc.
Qed.

Lemma term_loop_is_Some q D l e :
  is_Some (term_loop q D l e) →
  ∀ k, k ∈ l → is_Some (q !! k) ∧ is_Some (D !! k).
Proof.
  unfold term_loop, Var. revert e.
  induction l as [|k l IH]; intros e Hsome k' Hk'; [by inversion Hk'|].
  cbn [Py.for_in] in Hsome.
  destruct (q !! k) as [qk|] eqn:Hq; [|by destruct Hsome].
  destruct (D !! k) as [Xk|] eqn:HD; [|by destruct Hsome].
  cbn [mbind option_bind] in Hsome.
  apply elem_of_cons in Hk' as [->|Hk']; [by rewrite Hq, HD|].
  by apply (IH _ Hsome).
Qed.

End term_loop.

(** The best of the members of a list that have a property. *)
Lemma best_among {A} (P : A → Prop) `{∀ a, Decision (P a)} (f : A → Q)
    (l : list A) :
  (∃ a, a ∈ l ∧ P a) →
  ∃ a, a ∈ l ∧ P a ∧ ∀ a', a' ∈ l → P a' → f a' <= f a.
Proof.
  induction l as [|a l IH]; intros (a0 & Ha0 & HP0); [by inversion Ha0|].
  destruct (decide (Exists P l)) as [Hex|Hno].
  - apply Exists_exists in Hex. destruct (IH Hex) as (a1 & Ha1 & HP1 & Hbest).
    destruct (decide (P a)) as [HPa|HPa].
    + destruct (Qlt_le_dec (f a1) (f a)) as [Hlt|Hle].
      * exists a. split; [by left|]. split; [done|].
        intros a' [->|Ha']%elem_of_cons HP'; [lra|].
        specialize (Hbest a' Ha' HP'). lra.
      * exists a1. split; [by right|]. split; [done|].
        intros a' [->|Ha']%elem_of_cons HP'; [done|by apply Hbest].
    + exists a1. split; [by right|]. split; [done|].
      intros a' [->|Ha']%elem_of_cons HP'; [done|by apply Hbest].
  - assert (∀ a', a' ∈ l → ¬ P a') as Hnone.
    { intros a' Ha' HP'. apply Hno, Exists_exists. eauto. }
    apply elem_of_cons in Ha0 as [->|Ha0]; [|by destruct (Hnone a0)].
    exists a. split; [by left|]. split; [done|].
    intros a' [->|Ha']%elem_of_cons HP'; [lra|by destruct (Hnone a')].
Qed.

(** *** The knapsack cells on any data *)

Lemma knapsack_build_unfold I v w b :
  knapsack_build I v w b =
    (total_value ← term_loop v (key_dict I) I [];
     i_sum ← term_loop w (key_dict I) I [];
     Some (key_dict I,
           mkModel "Knapsack-Problem" ((λ i, (i, BINARY)) <$> I)
             total_value MAXIMIZE
             [mkConstr "capacity_constraint"
                (mkTempConstr i_sum LESS_EQUAL b)])).
Proof. reflexivity. Qed.

Lemma knapsack_build_Some I v w b :
  (∀ i, i ∈ I → is_Some (v !! i) ∧ is_Some (w !! i)) →
  knapsack_build I v w b = Some (key_dict I, knapsack_formulation I v w b).
Proof.
  intros Hkeys. rewrite knapsack_build_unfold.
  rewrite !term_loop_Some; [done|..].
  all: intros i Hi; split; [by apply Hkeys|by apply lookup_key_dict].
Qed.

Lemma knapsack_build_keys I v w b :
  is_Some (knapsack_build I v w b) →
  ∀ i, i ∈ I → is_Some (v !! i) ∧ is_Some (w !! i).
Proof.
  rewrite knapsack_build_unfold. intros Hsome i Hi.
  destruct (term_loop v (key_dict I) I []) as [e1|] eqn:E1;
    [|by destruct Hsome].
  destruct (term_loop w (key_dict I) I []) as [e2|] eqn:E2;
    [|by destruct Hsome].
  split.
  - by eapply (term_loop_is_Some v), Hi; rewrite E1.
  - by eapply (term_loop_is_Some w), Hi; rewrite E2.
Qed.

(** The printing loop on any values: it keeps the items above the
    threshold. *)
Lemma knapsack_report_loop (D : tupledict nat) (x : assignment nat) l out :
  (∀ i, i ∈ l → D !! i = Some i) →
  Py.for_in l
    (λ i out, Xi ← D !! i;
              if Py.gt (x Xi) 0.1 then Some (out ++ [Knapsack.item_line i])
              else Some out) out
  = Some (out ++ (Knapsack.item_line <$>
                    filter (λ i, Py.gt (x i) 0.1 = true) l)).
Proof.
  unfold Var. revert out.
  induction l as [|i l IH]; intros out HD; simpl.
  - by rewrite app_nil_r.
  - rewrite (HD i) by left. simpl. rewrite filter_cons.
    destruct (Py.gt (x i) 0.1) eqn:Hg; simpl.
    + rewrite IH by (intros; apply HD; by right).
      by rewrite <- app_assoc.
    + apply IH. intros; apply HD; by right.
Qed.


Lemma filter_ext_in {A} (P1 P2 : A → Prop)
    `{!∀ a, Decision (P1 a), !∀ a, Decision (P2 a)} (l : list A) :
  (∀ a, a ∈ l → P1 a ↔ P2 a) → filter P1 l = filter P2 l.
Proof.
  induction l as [|a l IH]; intros Hiff; [done|].
  rewrite !filter_cons, IH by (intros; apply Hiff; by right).
  destruct (decide (P1 a)) as [H1|H1].
  - rewrite decide_True; [done|]. by apply (Hiff a); [left|].
  - rewrite decide_False; [done|]. intros H2. apply H1.
    by apply (Hiff a); [left|].
Qed.

Section knapsack_any.
Context (I : list nat) (v w : gmap nat Q) (b : Q).

Lemma formulation_feasible_iff x :
  feasible (knapsack_formulation I v w b) x ↔
    (∀ i, i ∈ I → binary (x i)) ∧ sum_over I (λ i, at_key w i * x i) <= b.
Proof.
  unfold feasible, knapsack_formulation. cbn [model_vars model_constrs].
  rewrite Forall_fmap, Forall_forall, Forall_singleton.
  unfold holds. cbn [constr_body tc_sense tc_lhs tc_rhs].
  by rewrite value_fmap.
Qed.

Lemma formulation_ObjVal x :
  ObjVal (knapsack_formulation I v w b) x = sum_over I (λ i, at_key v i * x i).
Proof. unfold ObjVal, knapsack_formulation. cbn [model_obj]. apply value_fmap. Qed.

Lemma weighted_sum_agree (q : nat → Q) x y :
  (∀ i, i ∈ I → x i == y i) →
  sum_over I (λ i, q i * x i) == sum_over I (λ i, q i * y i).
Proof.
  intros Hxy. apply sum_over_ext. intros i Hi. cbn beta.
  by rewrite (Hxy i Hi).
Qed.

Lemma formulation_feasible_agree x y :
  (∀ i, i ∈ I → x i == y i) →
  feasible (knapsack_formulation I v w b) y →
  feasible (knapsack_formulation I v w b) x.
Proof.
  intros Hxy [Hbin Hcap]%formulation_feasible_iff.
  apply formulation_feasible_iff. split.
  - intros i Hi. destruct (Hbin i Hi) as [H0|H1]; [left|right];
      by rewrite (Hxy i Hi).
  - by rewrite (weighted_sum_agree _ x y Hxy).
Qed.

Lemma agrees_with_its_selection x i :
  i ∈ I → binary (x i) → x i == Knapsack.indicator (selected x I) i.
Proof.
  intros Hi Hb. unfold Knapsack.indicator, selected. case_decide as Hin.
  - apply list_elem_of_filter in Hin. tauto.
  - destruct (binary_cases _ Hb) as [H1|[H0 _]]; [|exact H0].
    destruct Hin. apply list_elem_of_filter. tauto.
Qed.

(** Nothing selected weighs nothing. *)
Lemma none_selected_feasible :
  0 <= b → feasible (knapsack_formulation I v w b) none_selected.
Proof.
  intros Hb. apply formulation_feasible_iff. split; [by left|].
  rewrite sum_over_zeros; [done|]. by intros.
Qed.

Lemma feasible_needs_capacity x :
  (∀ i, i ∈ I → 0 <= at_key w i) →
  feasible (knapsack_formulation I v w b) x → 0 <= b.
Proof.
  intros Hw [Hbin Hcap]%formulation_feasible_iff.
  assert (0 <= sum_over I (λ i, at_key w i * x i)); [|lra].
  apply AssignmentSpec.sum_over_nonneg. intros i Hi. cbn beta.
  specialize (Hw i Hi).
  destruct (Hbin i Hi) as [H0|H1]; [rewrite H0|rewrite H1]; lra.
Qed.

(** A feasible model has an optimal solution: the best of the finitely many
    selections that fit. *)
Lemma formulation_has_optimum :
  (∃ x, feasible (knapsack_formulation I v w b) x) →
  ∃ x, optimal (knapsack_formulation I v w b) x.
Proof.
  intros [x0 Hx0].
  pose (fits := λ S : list nat,
          feasible (knapsack_formulation I v w b) (Knapsack.indicator S)).
  pose (worth := λ S : list nat,
          sum_over I (λ i, at_key v i * Knapsack.indicator S i)).
  assert (∀ S, Decision (fits S)) as Hdec.
  { intros S.
    destruct (decide (sum_over I (λ i, at_key w i * Knapsack.indicator S i)
                      <= b)) as [Hle|Hnle]; [left|right].
    - apply formulation_feasible_iff. split; [|done].
      intros; apply KnapsackSpec.indicator_binary.
    - by intros [_ ?]%formulation_feasible_iff. }
  assert (∀ y, feasible (knapsack_formulation I v w b) y →
               fits (selected y I)) as Hfit.
  { intros y Hy. unfold fits.
    apply (formulation_feasible_agree _ y); [|done].
    intros i Hi. symmetry. apply agrees_with_its_selection; [done|].
    apply formulation_feasible_iff in Hy. by apply Hy. }
  destruct (best_among fits worth (sublists I)) as (S & _ & HS & Hbest).
  { exists (selected x0 I). split; [apply filter_sublist|by apply Hfit]. }
  exists (Knapsack.indicator S). split; [exact HS|].
  intros y Hy. cbn [knapsack_formulation ModelSense]. rewrite !formulation_ObjVal.
  specialize (Hbest (selected y I) (filter_sublist _ _) (Hfit y Hy)).
  unfold worth in Hbest.
  rewrite (weighted_sum_agree _ y (Knapsack.indicator (selected y I))); [done|].
  intros i Hi. apply agrees_with_its_selection; [done|].
  apply formulation_feasible_iff in Hy. by apply Hy.
Qed.

End knapsack_any.


(** X2.  On any data for which they do not raise, the knapsack cells build
    the formulation and nothing more: one binary variable per item, the
    objective "maximize the sum of [v i * X i]" and the single constraint
    "the sum of [w i * X i] is at most [b]". *)
Theorem knapsack_build_is_formulation I v w b X m :
  knapsack_build I v w b = Some (X, m) →
  dom X = list_to_set I ∧
  model_vars m = (λ i, (i, BINARY)) <$> I ∧
  ModelSense m = MAXIMIZE ∧
  (∀ x, ObjVal m x = sum_over I (λ i, at_key v i * x i)) ∧
  (∃ lhs,
     model_constrs m =
       [mkConstr "capacity_constraint" (mkTempConstr lhs LESS_EQUAL b)] ∧
     ∀ x, value lhs x = sum_over I (λ i, at_key w i * x i)) ∧
  (∀ x, feasible m x ↔
        (∀ i, i ∈ I → x i == 0 ∨ x i == 1) ∧
        sum_over I (λ i, at_key w i * x i) <= b).
Proof.
  intros Hbuild.
  assert (is_Some (knapsack_build I v w b)) as Hsome by (by rewrite Hbuild).
  rewrite (knapsack_build_Some I v w b (knapsack_build_keys _ _ _ _ Hsome))
    in Hbuild.
  injection Hbuild as <- <-.
  split.
  { unfold key_dict, tupledict, Var.
    rewrite dom_list_to_map_L, <- list_fmap_compose.
    f_equal. apply list_fmap_id. }
  split; [done|]. split; [done|].
  split; [apply formulation_ObjVal|].
  split; [|apply formulation_feasible_iff].
  eexists. split; [reflexivity|]. intros x. apply value_fmap.
Qed.

Lemma knapsack_build_is_formulation_witness :
  dom Knapsack.X = list_to_set Knapsack.I ∧
  model_vars Knapsack.model = (λ i, (i, BINARY)) <$> Knapsack.I ∧
  ModelSense Knapsack.model = MAXIMIZE.
Proof.
  assert (knapsack_build Knapsack.I Knapsack.v Knapsack.w Knapsack.b
          = Some (Knapsack.X, Knapsack.model)) as Hbuild
    by (vm_compute; reflexivity).
  destruct (knapsack_build_is_formulation _ _ _ _ _ _ Hbuild)
    as (H1 & H2 & H3 & _).
  exact (conj H1 (conj H2 H3)).
Defined.

(** X3.  On any data with weights that are not negative, the model the
    knapsack cells build has an optimal solution exactly when the capacity
    is not negative. *)
Theorem knapsack_solvable_iff I v w b X m :
  knapsack_build I v w b = Some (X, m) →
  (∀ i, i ∈ I → 0 <= at_key w i) →
  (∃ x, optimal m x) ↔ 0 <= b.
Proof.
  intros Hbuild Hw.
  assert (is_Some (knapsack_build I v w b)) as Hsome by (by rewrite Hbuild).
  rewrite (knapsack_build_Some I v w b (knapsack_build_keys _ _ _ _ Hsome))
    in Hbuild.
  injection Hbuild as <- <-. split.
  - intros (x & Hx & _). by apply (feasible_needs_capacity I v w b x).
  - intros Hb. apply formulation_has_optimum.
    exists none_selected. by apply none_selected_feasible.
Qed.

Lemma knapsack_solvable_iff_witness :
  (∃ x, optimal Knapsack.model x) ↔ 0 <= Knapsack.b.
Proof.
  assert (knapsack_build Knapsack.I Knapsack.v Knapsack.w Knapsack.b
          = Some (Knapsack.X, Knapsack.model)) as Hbuild
    by (vm_compute; reflexivity).
  apply (knapsack_solvable_iff _ _ _ _ _ _ Hbuild).
  apply Forall_forall.
  repeat first [apply Forall_nil_2|apply Forall_cons_2].
  all: vm_compute; discriminate.
Defined.

(** *** The knapsack notebook from end to end *)






(** X5.  The printing cell of the knapsack notebook does not depend on the
    values being exactly 0 or 1: when every [X[i].x] is within 0.1 of a
    0/1 value [r i], it prints the items with [r i = 1], and only them. *)
Theorem knapsack_report_tolerates (x r : assignment nat) :
  (∀ i, i ∈ Knapsack.I →
     binary (r i) ∧ - 0.1 <= x i - r i ∧ x i - r i <= 0.1) →
  Knapsack.report Knapsack.X x =
    Some (["Optimal Assignments"; "--------------------"]
            ++ (Knapsack.item_line <$> selected r Knapsack.I)).
Proof.
  intros Hnear. unfold Knapsack.report.
  rewrite (knapsack_report_loop Knapsack.X x Knapsack.I _
             KnapsackSpec.knapsack_X_lookup).
  do 3 f_equal. apply filter_ext_in. intros i Hi.
  destruct (Hnear i Hi) as (Hr & Hlo & Hhi).
  unfold Py.gt. rewrite negb_true_iff.
  destruct (Qle_bool (x i) 0.1) eqn:Hle.
  - apply Qle_bool_iff in Hle. split; [done|]. intros H1. lra.
  - split; [intros _|done]. destruct Hr as [H0|H1]; [|done].
    assert (Qle_bool (x i) 0.1 = true) by (apply Qle_bool_iff; lra).
    congruence.
Qed.

Lemma knapsack_report_tolerates_witness :
  Knapsack.report Knapsack.X
    (λ i, Knapsack.indicator Knapsack.reported i + 0.00001) =
    Some (["Optimal Assignments"; "--------------------"]
            ++ (Knapsack.item_line
                  <$> selected (Knapsack.indicator Knapsack.reported)
                        Knapsack.I)).
Proof.
  apply (knapsack_report_tolerates
           (λ i, Knapsack.indicator Knapsack.reported i + 0.00001)
           (Knapsack.indicator Knapsack.reported)).
  intros i _. split; [apply KnapsackSpec.indicator_binary|]. lra.
Defined.

(** *** Printed lines name their item *)

Lemma str_inj n n' : Py.str n = Py.str n' → n = n'.
Proof.
  unfold Py.str. intros Heq.
  assert (Some (Nat.to_uint n) = Some (Nat.to_uint n')) as [= Hu]
    by (by rewrite <- !NilEmpty.usu, Heq).
  by rewrite <- (DecimalNat.Unsigned.of_to n), Hu, DecimalNat.Unsigned.of_to.
Qed.

Lemma string_length_app (s t : string) :
  String.length (s +:+ t) = (String.length s + String.length t)%nat.
Proof. induction s as [|a s IH]; simpl; [done|]. by rewrite IH. Qed.

Lemma string_app_inv_tail (s s' t : string) :
  s +:+ t = s' +:+ t → s = s'.
Proof.
  revert s'. induction s as [|a s IH]; intros [|a' s'] Heq.
  - done.
  - apply (f_equal String.length) in Heq.
    rewrite !string_length_app in Heq. simpl in Heq. lia.
  - apply (f_equal String.length) in Heq.
    rewrite !string_length_app in Heq. simpl in Heq. lia.
  - simpl in Heq. injection Heq as -> Heq. f_equal. by apply IH.
Qed.

Lemma item_line_inj i i' : Knapsack.item_line i = Knapsack.item_line i' → i = i'.
Proof.
  unfold Knapsack.item_line. intros Heq.
  apply (inj (String.append " - Item ")) in Heq.
  by apply string_app_inv_tail, str_inj in Heq.
Qed.

Lemma item_lines_inj (l l' : list nat) :
  Knapsack.item_line <$> l = Knapsack.item_line <$> l' → l = l'.
Proof.
  revert l'. induction l as [|a l IH]; intros [|a' l'] Heq;
    try discriminate Heq; [done|].
  rewrite !fmap_cons in Heq.
  pose proof (f_equal head Heq) as Ha. pose proof (f_equal tail Heq) as Hl.
  cbn [head tail] in Ha, Hl. apply (inj Some) in Ha.
  f_equal; [by apply item_line_inj|by apply IH].
Qed.

(** X6.  The printout of the knapsack notebook determines the selection: two
    0/1 assignments with the same printout agree on every item. *)
Theorem knapsack_printout_determines_selection (x y : assignment nat) :
  (∀ i, i ∈ Knapsack.I → binary (x i)) →
  (∀ i, i ∈ Knapsack.I → binary (y i)) →
  Knapsack.report Knapsack.X x = Knapsack.report Knapsack.X y →
  ∀ i, i ∈ Knapsack.I → x i == y i.
Proof.
  intros Hx Hy Heq i Hi. unfold Knapsack.report in Heq.
  rewrite !(KnapsackSpec.report_loop Knapsack.X _ Knapsack.I _
              KnapsackSpec.knapsack_X_lookup) in Heq by done.
  injection Heq as Heq.
  assert (selected x Knapsack.I = selected y Knapsack.I) as Hsel.
  { by apply item_lines_inj. }
  assert (x i == 1 ↔ y i == 1) as Hiff.
  { transitivity (i ∈ selected x Knapsack.I).
    - unfold selected. rewrite list_elem_of_filter. tauto.
    - rewrite Hsel. unfold selected. rewrite list_elem_of_filter. tauto. }
  destruct (binary_cases _ (Hx i Hi)) as [H1|[H0 Hn1]].
  - rewrite H1. symmetry. by apply Hiff.
  - rewrite H0. destruct (Hy i Hi) as [H0'|H1']; [by symmetry|].
    destruct Hn1. by apply Hiff.
Qed.

Lemma knapsack_printout_determines_selection_witness :
  Knapsack.indicator [2; 3; 5; 6; 7; 9]%nat 5%nat
  == Knapsack.indicator [9; 7; 6; 5; 3; 2]%nat 5%nat.
Proof.
  apply (knapsack_printout_determines_selection
           (Knapsack.indicator [2; 3; 5; 6; 7; 9]%nat)
           (Knapsack.indicator [9; 7; 6; 5; 3; 2]%nat)).
  - intros; apply KnapsackSpec.indicator_binary.
  - intros; apply KnapsackSpec.indicator_binary.
  - vm_compute. reflexivity.
  - apply elem_of_seq. lia.
Defined.

(** *** The assignment cells on any size and costs *)

Section var_loop.
Context `{Countable K} {A : Type}.
Implicit Types (D : gmap K K) (key : A → K) (l : list A).

Lemma var_loop_Some D key l e :
  (∀ a, a ∈ l → D !! key a = Some (key a)) →
  var_loop D key l e = Some (e ++ ((λ a, (1, key a)) <$> l)).
Proof.
  unfold var_loop, Var. revert e.
  induction l as [|a l IH]; intros e Hl; cbn [Py.for_in fmap list_fmap].
  - by rewrite app_nil_r.
  - rewrite (Hl a) by left. cbn [mbind option_bind].
    rewrite IH by (intros; apply Hl; by right).
    unfold add, of_var. by rewrite <- app_assoc.
Qed.

End var_loop.

(** The loop that adds one constraint per member of [l]. *)
Lemma constr_loop_Some (D : gmap (nat * nat) (nat * nat)) (R l : list nat)
    (key : nat → nat → nat * nat) (name : nat → string) m :
  (∀ a a', a ∈ l → a' ∈ R → D !! key a a' = Some (key a a')) →
  Py.for_in l (λ a m,
      e ← var_loop D (key a) R LinExpr_new;
      Some (addConstr (mkTempConstr e EQUAL 1) (name a) m)) m
  = Some (mkModel (ModelName m) (model_vars m) (model_obj m) (ModelSense m)
            (model_constrs m ++
             ((λ a, mkConstr (name a)
                      (mkTempConstr ((λ a', (1, key a a')) <$> R) EQUAL 1))
                <$> l))).
Proof.
  revert m. induction l as [|a l IH]; intros m Hl; cbn [Py.for_in].
  - rewrite app_nil_r. by destruct m.
  - rewrite var_loop_Some by (intros; apply Hl; [by left|done]).
    cbn [mbind option_bind]. rewrite IH by (intros; apply Hl; [by right|done]).
    unfold addConstr, LinExpr_new. cbn.
    by rewrite <- app_assoc.
Qed.

(** The two nested loops of the objective are one loop over the pairs. *)
Lemma nested_term_loop (c D : gmap (nat * nat) _) (l k : list nat) e :
  Py.for_in l (λ i e,
    Py.for_in k (λ j e,
      cij ← c !! (i, j); Xij ← D !! (i, j);
      Some (add e (times cij Xij))) e) e
  = term_loop c D (Py.product l k) e.
Proof.
  exact (for_in_product l k
           (λ ij e, cij ← c !! ij; Xij ← D !! ij;
                    Some (add e (times cij Xij))) e).
Qed.

Lemma assignment_build_unfold SIZE c :
  assignment_build SIZE c =
    let R := seq 1 SIZE in
    let D := key_dict (Py.product R R) in
    (total_cost ← term_loop c D (Py.product R R) [];
     m ← Py.for_in R (λ j m,
           e ← var_loop D (λ i, (i, j)) R LinExpr_new;
           Some (addConstr (mkTempConstr e EQUAL 1) (Assignment.task_name j) m))
           (mkModel "Assignment-Problem" ((λ k, (k, BINARY)) <$> Py.product R R)
              total_cost MINIMIZE []);
     m ← Py.for_in R (λ i m,
           e ← var_loop D (λ j, (i, j)) R LinExpr_new;
           Some (addConstr (mkTempConstr e EQUAL 1)
                   (Assignment.resource_name i) m)) m;
     Some (D, m)).
Proof.
  unfold assignment_build. cbn zeta.
  rewrite <- nested_term_loop. reflexivity.
Qed.

Lemma assignment_build_Some SIZE c :
  (∀ i j, i ∈ seq 1 SIZE → j ∈ seq 1 SIZE → is_Some (c !! (i, j))) →
  assignment_build SIZE c
  = Some (key_dict (Py.product (seq 1 SIZE) (seq 1 SIZE)),
          assignment_formulation SIZE c).
Proof.
  intros Hc. rewrite assignment_build_unfold. cbn zeta.
  assert (∀ i j, i ∈ seq 1 SIZE → j ∈ seq 1 SIZE →
            key_dict (Py.product (seq 1 SIZE) (seq 1 SIZE)) !! (i, j)
            = Some (i, j)) as HD.
  { intros i j Hi Hj. apply lookup_key_dict, elem_of_product. done. }
  rewrite term_loop_Some.
  2:{ intros [i j] [Hi Hj]%elem_of_product. split; [by apply Hc|by apply HD]. }
  cbn [mbind option_bind].
  rewrite (constr_loop_Some _ (seq 1 SIZE) (seq 1 SIZE) (λ j i, (i, j)))
    by (intros; by apply HD).
  cbn [mbind option_bind].
  rewrite (constr_loop_Some _ (seq 1 SIZE) (seq 1 SIZE) (λ i j, (i, j)))
    by (intros; by apply HD).
  cbn [mbind option_bind ModelName model_vars model_obj ModelSense
       model_constrs app].
  reflexivity.
Qed.

Lemma assignment_build_keys SIZE c :
  is_Some (assignment_build SIZE c) →
  ∀ i j, i ∈ seq 1 SIZE → j ∈ seq 1 SIZE → is_Some (c !! (i, j)).
Proof.
  rewrite assignment_build_unfold. cbn zeta. intros Hsome i j Hi Hj.
  destruct (term_loop c _ _ []) as [e|] eqn:E; [|by destruct Hsome].
  eapply (term_loop_is_Some c); [by rewrite E|].
  apply elem_of_product. done.
Qed.

Section assignment_any.
Context (n : nat) (c : gmap (nat * nat) Q).

Local Abbreviation R := (seq 1 n).
Local Abbreviation af := (assignment_formulation n c).

Lemma formulation_feasible_iff_on x :
  feasible af x ↔
    (∀ i j, i ∈ R → j ∈ R → binary (x (i, j))) ∧
    (∀ j, j ∈ R → sum_over R (λ i, x (i, j)) == 1) ∧
    (∀ i, i ∈ R → sum_over R (λ j, x (i, j)) == 1).
Proof.
  unfold feasible, assignment_formulation. cbn [model_vars model_constrs].
  rewrite Forall_fmap, Forall_app, !Forall_fmap, !Forall_forall.
  assert (∀ j, holds x (task_row n j) ↔ sum_over R (λ i, x (i, j)) == 1)
    as Htask.
  { intros j. unfold holds, task_row.
    cbn [constr_body tc_sense tc_lhs tc_rhs].
    by rewrite AssignmentSpec.sum_over_unit_coefficients. }
  assert (∀ i, holds x (resource_row n i) ↔ sum_over R (λ j, x (i, j)) == 1)
    as Hres.
  { intros i. unfold holds, resource_row.
    cbn [constr_body tc_sense tc_lhs tc_rhs].
    by rewrite AssignmentSpec.sum_over_unit_coefficients. }
  split.
  - intros (Hbin & HT & HR). split; [|split].
    + intros i j Hi Hj. apply (Hbin (i, j)). by apply elem_of_product.
    + intros j Hj. by apply Htask, HT.
    + intros i Hi. by apply Hres, HR.
  - intros (Hbin & HT & HR). split; [|split].
    + intros [i j] [Hi Hj]%elem_of_product. by apply Hbin.
    + intros j Hj. by apply Htask, HT.
    + intros i Hi. by apply Hres, HR.
Qed.

Lemma formulation_ObjVal_on x :
  ObjVal af x
  == sum_over R (λ i, sum_over R (λ j, at_key c (i, j) * x (i, j))).
Proof.
  unfold ObjVal, assignment_formulation. cbn [model_obj].
  by rewrite value_fmap, sum_over_product.
Qed.

Lemma formulation_ObjVal_agree x y :
  (∀ i j, i ∈ R → j ∈ R → x (i, j) == y (i, j)) →
  ObjVal af x == ObjVal af y.
Proof.
  intros Hxy. rewrite !formulation_ObjVal_on.
  apply sum_over_ext. intros i Hi. cbn beta.
  apply sum_over_ext. intros j Hj. cbn beta. by rewrite (Hxy i j Hi Hj).
Qed.

Section one_solution.
Context (x : assignment (nat * nat)) (Hx : feasible af x).

Lemma row_one_on i :
  i ∈ R →
  task_given_on n x i ∈ R ∧ x (i, task_given_on n x i) == 1 ∧
  ∀ j, j ∈ R → x (i, j) == 1 → j = task_given_on n x i.
Proof.
  intros Hi. apply formulation_feasible_iff_on in Hx as (Hbin & _ & Hrow).
  destruct (sum_over_binary_one R (λ j, x (i, j))) as (j0 & Hj0 & H1 & Huniq);
    [intros; by apply Hbin|by apply Hrow|].
  destruct (AssignmentSpec.head_selected (λ j, x (i, j)) R j0 Hj0 H1)
    as (j1 & Hhead & Hj1 & H1').
  unfold task_given_on. rewrite Hhead. cbn [default].
  rewrite (Huniq j1 Hj1 H1'). done.
Qed.

Lemma column_one_on j :
  j ∈ R →
  ∃ i, i ∈ R ∧ x (i, j) == 1 ∧ ∀ i', i' ∈ R → x (i', j) == 1 → i' = i.
Proof.
  intros Hj. apply formulation_feasible_iff_on in Hx as (Hbin & Hcol & _).
  apply (sum_over_binary_one R (λ i, x (i, j)));
    [intros; by apply Hbin|by apply Hcol].
Qed.

Lemma induced_on_Permutation : induced_on n x ≡ₚ R.
Proof.
  apply NoDup_Permutation.
  - apply NoDup_fmap_2_strong; [|apply NoDup_seq].
    intros i i' Hi Hi' Heq.
    destruct (row_one_on i Hi) as (Hj & H1 & _).
    destruct (row_one_on i' Hi') as (_ & H1' & _).
    destruct (column_one_on _ Hj) as (i0 & _ & _ & Huniq).
    rewrite <- Heq in H1'.
    by rewrite (Huniq i Hi H1), (Huniq i' Hi' H1').
  - apply NoDup_seq.
  - intros j. unfold induced_on. rewrite list_elem_of_fmap. split.
    + intros (i & -> & Hi). by apply row_one_on.
    + intros Hj. destruct (column_one_on j Hj) as (i & Hi & H1 & _).
      exists i. split; [|done].
      destruct (row_one_on i Hi) as (_ & _ & Huniq). by apply Huniq.
Qed.

Lemma task_of_induced_on i :
  i ∈ R →
  Assignment.task_of (induced_on n x) i = Some (task_given_on n x i).
Proof.
  intros Hi. apply elem_of_seq in Hi.
  unfold Assignment.task_of, induced_on.
  rewrite list_lookup_fmap, lookup_seq_lt by lia.
  cbn. do 2 f_equal. lia.
Qed.

Lemma agrees_with_its_matching i j :
  i ∈ R → j ∈ R →
  x (i, j) == Assignment.as_assignment (induced_on n x) (i, j).
Proof.
  intros Hi Hj. destruct (row_one_on i Hi) as (_ & H1 & Huniq).
  pose proof Hx as (Hbin & _)%formulation_feasible_iff_on.
  unfold Assignment.as_assignment. cbn [fst snd].
  rewrite (task_of_induced_on i Hi). case_decide as Hd.
  - injection Hd as <-. done.
  - destruct (Hbin i j Hi Hj) as [H0|H1']; [done|].
    destruct Hd. f_equal. symmetry. by apply Huniq.
Qed.

End one_solution.

(** Every way of giving each resource its own task is feasible. *)
Lemma matching_feasible_on p :
  p ≡ₚ R → feasible af (Assignment.as_assignment p).
Proof.
  intros Hp. apply formulation_feasible_iff_on.
  assert (NoDup p) as Hnd by (rewrite Hp; apply NoDup_seq).
  assert (length p = n) as Hlen
    by (rewrite (Permutation_length Hp); apply length_seq).
  split; [intros; apply AssignmentSpec.as_assignment_binary|]. split.
  - intros j Hj. rewrite <- Hp in Hj.
    apply list_elem_of_lookup in Hj as [k Hk].
    assert (k < n)%nat as Hk' by (rewrite <- Hlen; by eapply lookup_lt_Some).
    apply (sum_over_one_hot R _ (S k)); [apply NoDup_seq|..].
    + apply elem_of_seq. lia.
    + unfold Assignment.as_assignment, Assignment.task_of. cbn [fst snd].
      rewrite decide_True; [reflexivity|]. cbn. by rewrite Nat.sub_0_r.
    + intros i Hi Hne.
      unfold Assignment.as_assignment, Assignment.task_of. cbn [fst snd].
      rewrite decide_False; [reflexivity|]. intros Hi'.
      apply elem_of_seq in Hi.
      pose proof (NoDup_lookup _ _ _ _ Hnd Hi' Hk). lia.
  - intros i Hi. apply elem_of_seq in Hi.
    destruct (lookup_lt_is_Some_2 p (i - 1)) as [j0 Hj0]; [lia|].
    apply (sum_over_one_hot R _ j0); [apply NoDup_seq|..].
    + rewrite <- Hp. by eapply list_elem_of_lookup_2.
    + unfold Assignment.as_assignment, Assignment.task_of. cbn [fst snd].
      by rewrite decide_True.
    + intros j Hj Hne.
      unfold Assignment.as_assignment, Assignment.task_of. cbn [fst snd].
      rewrite decide_False; [reflexivity|]. congruence.
Qed.

Lemma induced_on_matching p :
  p ≡ₚ R → induced_on n (Assignment.as_assignment p) = p.
Proof.
  intros Hp. pose proof (matching_feasible_on p Hp) as Hfeas.
  assert (length p = n) as Hlen
    by (rewrite (Permutation_length Hp); apply length_seq).
  apply list_eq. intros k. unfold induced_on.
  rewrite list_lookup_fmap.
  destruct (decide (k < n)%nat) as [Hk|Hk].
  - rewrite lookup_seq_lt by done. cbn.
    destruct (lookup_lt_is_Some_2 p k) as [j Hj]; [lia|].
    rewrite Hj. f_equal. symmetry.
    apply (row_one_on _ Hfeas (S k)); [apply elem_of_seq; lia|..].
    + rewrite <- Hp. by eapply list_elem_of_lookup_2.
    + unfold Assignment.as_assignment, Assignment.task_of. cbn [fst snd].
      rewrite decide_True; [reflexivity|]. cbn. by rewrite Nat.sub_0_r.
  - rewrite lookup_seq_ge by lia. cbn. symmetry.
    apply lookup_ge_None. lia.
Qed.

(** The model has an optimal solution: the cheapest of the finitely many
    matchings. *)
Lemma formulation_has_optimum_on : ∃ x, optimal af x.
Proof.
  destruct (best_among (λ _ : list nat, True)
              (λ p, - ObjVal af (Assignment.as_assignment p))
              (permutations R)) as (p & Hp & _ & Hbest).
  { exists R. split; [apply permutations_refl|done]. }
  apply permutations_Permutation in Hp.
  exists (Assignment.as_assignment p).
  split; [by apply matching_feasible_on|].
  intros y Hy. cbn [assignment_formulation ModelSense].
  specialize (Hbest (induced_on n y)).
  rewrite (formulation_ObjVal_agree y
             (Assignment.as_assignment (induced_on n y)))
    by (intros; by apply agrees_with_its_matching).
  assert (- ObjVal af (Assignment.as_assignment (induced_on n y))
          <= - ObjVal af (Assignment.as_assignment p)); [|lra].
  apply Hbest; [|done].
  apply permutations_Permutation. symmetry. by apply induced_on_Permutation.
Qed.

End assignment_any.

Lemma assignment_build_inv n c X m :
  assignment_build n c = Some (X, m) →
  X = key_dict (Py.product (seq 1 n) (seq 1 n)) ∧
  m = assignment_formulation n c.
Proof.
  intros Hbuild.
  assert (is_Some (assignment_build n c)) as Hsome by (by rewrite Hbuild).
  rewrite (assignment_build_Some n c (assignment_build_keys _ _ Hsome))
    in Hbuild.
  by injection Hbuild as <- <-.
Qed.

Lemma assignment_cells_run :
  assignment_build Assignment.SIZE Assignment.c
  = Some (Assignment.X, Assignment.model).
Proof. vm_compute. reflexivity. Qed.

(** X7.  On any size and costs for which they do not raise, the assignment
    cells build the formulation and nothing more: one binary variable per
    pair, the objective "minimize the sum of [c (i, j) * X (i, j)]", and
    [2 * SIZE] constraints, named and ordered as the notebook displays
    them: one per task (its resources sum to one), then one per resource
    (its tasks sum to one). *)
Theorem assignment_build_is_formulation n c X m :
  assignment_build n c = Some (X, m) →
  dom X = list_to_set (Py.product (seq 1 n) (seq 1 n)) ∧
  model_vars m = (λ k, (k, BINARY)) <$> Py.product (seq 1 n) (seq 1 n) ∧
  length (model_vars m) = (n * n)%nat ∧
  ModelSense m = MINIMIZE ∧
  (∀ x, ObjVal m x
        == sum_over (seq 1 n) (λ i,
             sum_over (seq 1 n) (λ j, at_key c (i, j) * x (i, j)))) ∧
  ConstrName <$> model_constrs m
    = (Assignment.task_name <$> seq 1 n)
      ++ (Assignment.resource_name <$> seq 1 n) ∧
  length (model_constrs m) = (2 * n)%nat ∧
  (∀ x, feasible m x ↔
        (∀ i j, i ∈ seq 1 n → j ∈ seq 1 n →
                x (i, j) == 0 ∨ x (i, j) == 1) ∧
        (∀ j, j ∈ seq 1 n → sum_over (seq 1 n) (λ i, x (i, j)) == 1) ∧
        (∀ i, i ∈ seq 1 n → sum_over (seq 1 n) (λ j, x (i, j)) == 1)).
Proof.
  intros [-> ->]%assignment_build_inv.
  split.
  { unfold key_dict, tupledict, Var.
    rewrite dom_list_to_map_L, <- list_fmap_compose.
    f_equal. apply list_fmap_id. }
  split; [done|].
  split.
  { cbn [assignment_formulation model_vars].
    by rewrite length_fmap, AssignmentSpec.length_product, !length_seq. }
  split; [done|].
  split; [apply formulation_ObjVal_on|].
  split.
  { cbn [assignment_formulation model_constrs].
    by rewrite fmap_app, <- !list_fmap_compose. }
  split; [|apply formulation_feasible_iff_on].
  cbn [assignment_formulation model_constrs].
  rewrite length_app, !length_fmap, !length_seq. lia.
Qed.

Lemma assignment_build_is_formulation_witness :
  ConstrName <$> model_constrs Assignment.model =
    ["task_1_assigned_to_one_resource"; "task_2_assigned_to_one_resource";
     "task_3_assigned_to_one_resource"; "task_4_assigned_to_one_resource";
     "task_5_assigned_to_one_resource"; "task_6_assigned_to_one_resource";
     "task_7_assigned_to_one_resource"; "task_8_assigned_to_one_resource";
     "task_9_assigned_to_one_resource"; "task_10_assigned_to_one_resource";
     "resource_1_assigned_to_one_task"; "resource_2_assigned_to_one_task";
     "resource_3_assigned_to_one_task"; "resource_4_assigned_to_one_task";
     "resource_5_assigned_to_one_task"; "resource_6_assigned_to_one_task";
     "resource_7_assigned_to_one_task"; "resource_8_assigned_to_one_task";
     "resource_9_assigned_to_one_task"; "resource_10_assigned_to_one_task"].
Proof.
  destruct (assignment_build_is_formulation _ _ _ _ assignment_cells_run)
    as (_ & _ & _ & _ & _ & H & _).
  exact H.
Defined.

(** X8.  On any size and costs, the feasible assignments of the model the
    cells build are the perfect matchings: a feasible assignment is the
    0/1 table of the rearrangement of the tasks it induces, and every
    rearrangement of the tasks gives a feasible assignment, which induces
    it back. *)
Theorem assignment_feasible_are_matchings n c X m :
  assignment_build n c = Some (X, m) →
  (∀ x, feasible m x →
        induced_on n x ≡ₚ seq 1 n ∧
        ∀ i j, i ∈ seq 1 n → j ∈ seq 1 n →
               x (i, j) == Assignment.as_assignment (induced_on n x) (i, j)) ∧
  (∀ p, p ≡ₚ seq 1 n →
        feasible m (Assignment.as_assignment p) ∧
        induced_on n (Assignment.as_assignment p) = p).
Proof.
  intros [-> ->]%assignment_build_inv. split.
  - intros x Hx. split; [by apply (induced_on_Permutation n c)|].
    intros i j. by apply (agrees_with_its_matching n c).
  - intros p Hp. split; [by apply matching_feasible_on|].
    by apply (induced_on_matching n c).
Qed.

Lemma assignment_feasible_are_matchings_witness :
  feasible Assignment.model (Assignment.as_assignment Assignment.reported) ∧
  induced_on 10 (Assignment.as_assignment Assignment.reported)
  = Assignment.reported.
Proof.
  destruct (assignment_feasible_are_matchings _ _ _ _ assignment_cells_run)
    as [_ H].
  apply H. apply AssignmentSpec.reported_Permutation.
Defined.

(** X9.  On any size and costs for which the cells do not raise, the model
    they build has an optimal solution (it is never infeasible and never
    unbounded). *)
Theorem assignment_always_solvable n c X m :
  assignment_build n c = Some (X, m) → ∃ x, optimal m x.
Proof.
  intros [-> ->]%assignment_build_inv. apply formulation_has_optimum_on.
Qed.

Lemma assignment_always_solvable_witness :
  ∃ x, optimal Assignment.model x.
Proof.
  exact (assignment_always_solvable _ _ _ _ assignment_cells_run).
Defined.

(** *** The assignment printing cell on any values *)

Section report_any.
Context (D : tupledict (nat * nat)) (x : assignment (nat * nat)).
Context (R : list nat).
Context (HD : ∀ i j, i ∈ R → j ∈ R → D !! (i, j) = Some (i, j)).

(** The inner loop prints the one task above the threshold. *)
Lemma inner_loop_first i j0 js out :
  (∀ j, j ∈ js → D !! (i, j) = Some (i, j)) →
  j0 ∈ js → Py.gt (x (i, j0)) 0.1 = true →
  (∀ j, j ∈ js → j ≠ j0 → Py.gt (x (i, j)) 0.1 = false) →
  Py.for_in_break js (Assignment.scan D x i) out
  = Some (out ++ [Assignment.pair_line i j0]).
Proof.
  intros HX Hin H1 H0.
  induction js as [|j js IH]; [by inversion Hin|].
  cbn [Py.for_in_break]. rewrite AssignmentSpec.scan_eq by (apply HX; left).
  destruct (decide (j = j0)) as [->|Hne].
  - by rewrite H1.
  - rewrite (H0 j); [|by left|done].
    cbn [mbind option_bind].
    apply elem_of_cons in Hin as [->|Hin]; [done|].
    apply IH; [intros; apply HX; by right|done|].
    intros; apply H0; [by right|done].
Qed.

Lemma outer_loop_first (f : nat → nat) (rs : list nat) out :
  (∀ i, i ∈ rs →
     i ∈ R ∧ f i ∈ R ∧ Py.gt (x (i, f i)) 0.1 = true ∧
     ∀ j, j ∈ R → j ≠ f i → Py.gt (x (i, j)) 0.1 = false) →
  Py.for_in rs (λ i out, Py.for_in_break R (Assignment.scan D x i) out) out
  = Some (out ++ ((λ i, Assignment.pair_line i (f i)) <$> rs)).
Proof.
  revert out. induction rs as [|i rs IH]; intros out Hrs; cbn [Py.for_in].
  - by rewrite app_nil_r.
  - destruct (Hrs i) as (Hi & Hf & H1 & H0); [by left|].
    rewrite (inner_loop_first i (f i) R out);
      [|intros; by apply HD|done..].
    cbn [mbind option_bind]. rewrite IH by (intros; apply Hrs; by right).
    by rewrite fmap_cons, <- app_assoc.
Qed.

Lemma outer_loop_succeeds (rs : list nat) out :
  (∀ i, i ∈ rs → i ∈ R) →
  is_Some (Py.for_in rs
             (λ i out, Py.for_in_break R (Assignment.scan D x i) out) out).
Proof.
  revert out. induction rs as [|i rs IH]; intros out Hrs; cbn [Py.for_in].
  - by eexists.
  - destruct (AssignmentSpec.inner_loop_at_most_one D x i R out)
      as (out' & -> & _); [intros; apply HD; [apply Hrs; by left|done]|].
    cbn [mbind option_bind]. apply IH. intros; apply Hrs; by right.
Qed.

End report_any.

Lemma key_dict_pairs n i j :
  i ∈ seq 1 n → j ∈ seq 1 n →
  key_dict (Py.product (seq 1 n) (seq 1 n)) !! (i, j) = Some (i, j).
Proof. intros Hi Hj. apply lookup_key_dict, elem_of_product. done. Qed.

(** The printout for values within 0.1 of a matching. *)
Lemma report_near_matching n (x : assignment (nat * nat)) p :
  p ≡ₚ seq 1 n →
  (∀ i j, i ∈ seq 1 n → j ∈ seq 1 n →
     - 0.1 <= x (i, j) - Assignment.as_assignment p (i, j) ∧
     x (i, j) - Assignment.as_assignment p (i, j) <= 0.1) →
  assignment_report n (key_dict (Py.product (seq 1 n) (seq 1 n))) x =
    Some (["Optimal Assignments"; "--------------------"]
            ++ ((λ i, Assignment.pair_line i
                        (default 0%nat (Assignment.task_of p i)))
                  <$> seq 1 n)).
Proof.
  intros Hp Hnear. unfold assignment_report. cbn zeta.
  assert (length p = n) as Hlen
    by (rewrite (Permutation_length Hp); apply length_seq).
  apply (outer_loop_first _ x (seq 1 n) (key_dict_pairs n)).
  intros i Hi. split; [done|].
  pose proof Hi as Hi'. apply elem_of_seq in Hi'.
  destruct (lookup_lt_is_Some_2 p (i - 1)) as [j0 Hj0]; [lia|].
  assert (default 0%nat (Assignment.task_of p i) = j0) as ->
    by (unfold Assignment.task_of; by rewrite Hj0).
  assert (j0 ∈ seq 1 n) as Hj0'
    by (rewrite <- Hp; by eapply list_elem_of_lookup_2).
  split; [done|]. split.
  - destruct (Hnear i j0 Hi Hj0') as [Hlo _].
    unfold Assignment.as_assignment, Assignment.task_of in Hlo.
    cbn [fst snd] in Hlo. rewrite decide_True in Hlo by done.
    unfold Py.gt. apply negb_true_iff.
    destruct (Qle_bool (x (i, j0)) 0.1) eqn:Hle; [|done].
    apply Qle_bool_iff in Hle. lra.
  - intros j Hj Hne. destruct (Hnear i j Hi Hj) as [_ Hhi].
    unfold Assignment.as_assignment, Assignment.task_of in Hhi.
    cbn [fst snd] in Hhi. rewrite decide_False in Hhi by congruence.
    unfold Py.gt. apply negb_false_iff, Qle_bool_iff. lra.
Qed.

Lemma notebook_report x :
  Assignment.report Assignment.X x
  = assignment_report 10 (key_dict (Py.product (seq 1 10) (seq 1 10))) x.
Proof. rewrite AssignmentSpec.X_eq. reflexivity. Qed.

(** X10.  The "All together" cell of the assignment notebook never raises,
    whatever the size, the numbers drawn and the values the solver
    returns: every pair has a cost and a variable.  With costs from
    elsewhere, the cells that build the model raise exactly when some pair
    has no cost. *)
Theorem assignment_cell_never_raises (n : nat) (draw : Assignment.rng)
    (optimize : solver (nat * nat)) (c : gmap (nat * nat) Q) :
  is_Some (assignment_cell n draw optimize) ∧
  (is_Some (assignment_build n c) ↔
     ∀ i j, i ∈ seq 1 n → j ∈ seq 1 n → is_Some (c !! (i, j))) ∧
  Assignment.build = assignment_build Assignment.SIZE Assignment.c.
Proof.
  split; [|split; [|vm_compute; reflexivity]].
  - unfold assignment_cell. cbn zeta.
    rewrite assignment_build_Some.
    + cbn [mbind option_bind]. unfold assignment_report. cbn zeta.
      by apply (outer_loop_succeeds _ _ (seq 1 n) (key_dict_pairs n)).
    + intros i j Hi Hj.
      apply elem_of_dom. rewrite AssignmentSpec.dom_draw_costs.
      by apply elem_of_list_to_set, elem_of_product.
  - split; [apply assignment_build_keys|].
    intros Hc. by rewrite assignment_build_Some.
Qed.




(** X12.  The printing cell of the assignment notebook does not depend on
    the values being exactly 0 or 1: when every [X[i, j].x] is within 0.1
    of the 0/1 table of a matching, it prints that matching, one line per
    resource in the order of the resources. *)
Theorem assignment_report_tolerates n (x : assignment (nat * nat)) p :
  p ≡ₚ seq 1 n →
  (∀ i j, i ∈ seq 1 n → j ∈ seq 1 n →
     - 0.1 <= x (i, j) - Assignment.as_assignment p (i, j) ∧
     x (i, j) - Assignment.as_assignment p (i, j) <= 0.1) →
  assignment_report n (key_dict (Py.product (seq 1 n) (seq 1 n))) x =
    Some (["Optimal Assignments"; "--------------------"]
            ++ ((λ i, Assignment.pair_line i
                        (default 0%nat (Assignment.task_of p i)))
                  <$> seq 1 n)) ∧
  (n = 10%nat →
   Assignment.report Assignment.X x =
     assignment_report n (key_dict (Py.product (seq 1 n) (seq 1 n))) x).
Proof.
  intros Hp Hnear. split; [by apply report_near_matching|].
  intros ->. apply notebook_report.
Qed.

Lemma assignment_report_tolerates_witness :
  Assignment.report Assignment.X
    (λ ij, Assignment.as_assignment Assignment.reported ij - 0.00001) =
    Some ["Optimal Assignments"; "--------------------";
          " - Resource 1 -> Task 10"; " - Resource 2 -> Task 7";
          " - Resource 3 -> Task 5"; " - Resource 4 -> Task 1";
          " - Resource 5 -> Task 9"; " - Resource 6 -> Task 4";
          " - Resource 7 -> Task 2"; " - Resource 8 -> Task 6";
          " - Resource 9 -> Task 3"; " - Resource 10 -> Task 8"].
Proof.
  destruct (assignment_report_tolerates 10
              (λ ij, Assignment.as_assignment Assignment.reported ij - 0.00001)
              Assignment.reported AssignmentSpec.reported_Permutation)
    as [Hprint Hsame].
  { intros i j _ _. cbn beta. lra. }
  rewrite (Hsame eq_refl), Hprint. vm_compute. reflexivity.
Defined.

(** *** Printed lines name their task *)

Lemma pair_line_inj i j j' :
  Assignment.pair_line i j = Assignment.pair_line i j' → j = j'.
Proof.
  unfold Assignment.pair_line. intros Heq.
  apply (inj (String.append " - Resource ")) in Heq.
  apply (inj (String.append (Py.str i))) in Heq.
  apply (inj (String.append " -> Task ")) in Heq.
  by apply str_inj.
Qed.

Lemma fmap_eq_on {A B} (f g : A → B) (l : list A) :
  f <$> l = g <$> l → ∀ a, a ∈ l → f a = g a.
Proof.
  induction l as [|a l IH]; intros Heq a' Ha'; [by inversion Ha'|].
  rewrite !fmap_cons in Heq.
  pose proof (f_equal head Heq) as Ha. pose proof (f_equal tail Heq) as Hl.
  cbn [head tail] in Ha, Hl. apply (inj Some) in Ha.
  apply elem_of_cons in Ha' as [->|Ha']; [done|by apply IH].
Qed.

Lemma report_feasible n c (x : assignment (nat * nat)) :
  feasible (assignment_formulation n c) x →
  assignment_report n (key_dict (Py.product (seq 1 n) (seq 1 n))) x =
    Some (["Optimal Assignments"; "--------------------"]
            ++ ((λ i, Assignment.pair_line i
                        (default 0%nat
                           (Assignment.task_of (induced_on n x) i)))
                  <$> seq 1 n)).
Proof.
  intros Hx. apply report_near_matching.
  - by apply (induced_on_Permutation n c).
  - intros i j Hi Hj.
    pose proof (agrees_with_its_matching n c x Hx i j Hi Hj). lra.
Qed.

(** X13.  The printout of the assignment notebook determines the matching:
    on any size, two feasible assignments with the same printout agree on
    every variable. *)
Theorem assignment_printout_determines_matching n c
    (x y : assignment (nat * nat)) :
  feasible (assignment_formulation n c) x →
  feasible (assignment_formulation n c) y →
  assignment_report n (key_dict (Py.product (seq 1 n) (seq 1 n))) x
  = assignment_report n (key_dict (Py.product (seq 1 n) (seq 1 n))) y →
  ∀ i j, i ∈ seq 1 n → j ∈ seq 1 n → x (i, j) == y (i, j).
Proof.
  intros Hx Hy Heq i j Hi Hj.
  rewrite (report_feasible n c x Hx), (report_feasible n c y Hy) in Heq.
  apply (inj Some), app_inv_head in Heq.
  assert (induced_on n x = induced_on n y) as Hsame.
  { apply list_fmap_ext. intros k i' Hi'%list_elem_of_lookup_2.
    pose proof (fmap_eq_on _ _ _ Heq i' Hi') as Hline.
    apply pair_line_inj in Hline.
    by rewrite !(task_of_induced_on n _ i' Hi') in Hline. }
  rewrite (agrees_with_its_matching n c x Hx i j Hi Hj).
  rewrite (agrees_with_its_matching n c y Hy i j Hi Hj).
  by rewrite Hsame.
Qed.

Lemma assignment_printout_determines_matching_witness :
  Assignment.as_assignment [2; 1]%nat (1%nat, 2%nat)
  == Assignment.as_assignment [2; 1; 7]%nat (1%nat, 2%nat).
Proof.
  assert ([2; 1]%nat ≡ₚ seq 1 2) as Hp by apply Permutation_swap.
  apply (assignment_printout_determines_matching 2 ∅
           (Assignment.as_assignment [2; 1]%nat)
           (Assignment.as_assignment [2; 1; 7]%nat)).
  - by apply matching_feasible_on.
  - apply formulation_feasible_iff_on.
    split; [intros; apply AssignmentSpec.as_assignment_binary|].
    split; apply Forall_forall;
      repeat first [apply Forall_nil_2|apply Forall_cons_2];
      vm_compute; reflexivity.
  - vm_compute. reflexivity.
  - apply elem_of_seq. lia.
  - apply elem_of_seq. lia.
Defined.

(** *** Which draw goes to which pair *)

Section draws.
Context (draw : Assignment.rng).

Local Abbreviation step :=
  (λ (st : gmap (nat * nat) Q * nat) (k : nat * nat),
     (<[k := draw st.2]> st.1, S st.2)).

Lemma draw_costs_skip (keys : list (nat * nat)) d n key :
  key ∉ keys → (foldl step (d, n) keys).1 !! key = d !! key.
Proof.
  revert d n. induction keys as [|a keys IH]; intros d n Hnot; [done|].
  apply not_elem_of_cons in Hnot as [Hne Hnot].
  cbn [foldl]. rewrite IH by done. cbn [fst snd].
  by rewrite lookup_insert_ne.
Qed.

(** A key gets the draw made at its last place in the list of keys. *)
Lemma draw_costs_at (keys : list (nat * nat)) d n k key :
  keys !! k = Some key →
  (∀ k', (k < k')%nat → keys !! k' ≠ Some key) →
  (foldl step (d, n) keys).1 !! key = Some (draw (n + k)%nat).
Proof.
  revert d n k. induction keys as [|a keys IH]; intros d n k Hk Hlast;
    [done|].
  cbn [foldl fst snd]. destruct k as [|k].
  - injection Hk as ->. rewrite draw_costs_skip.
    + rewrite lookup_insert_eq. do 2 f_equal. lia.
    + intros [k' Hk']%list_elem_of_lookup. apply (Hlast (S k')); [lia|done].
  - rewrite (IH _ _ k); [do 2 f_equal; lia|done|].
    intros k' Hlt. apply (Hlast (S k')). lia.
Qed.

End draws.

Lemma product_lookup {A B} (l : list A) (k : list B) ia ib a b :
  l !! ia = Some a → k !! ib = Some b →
  Py.product l k !! (ia * length k + ib)%nat = Some (a, b).
Proof.
  unfold Py.product. revert ia.
  induction l as [|a0 l IH]; intros ia Ha Hb; [done|].
  rewrite bind_cons, AssignmentSpec.product_row.
  destruct ia as [|ia].
  - injection Ha as ->. cbn [Nat.mul Nat.add].
    rewrite lookup_app_l by (rewrite length_fmap; by eapply lookup_lt_Some).
    by rewrite list_lookup_fmap, Hb.
  - rewrite lookup_app_r by (rewrite length_fmap; lia).
    rewrite length_fmap.
    replace (S ia * length k + ib - length k)%nat
      with (ia * length k + ib)%nat by lia.
    by apply IH.
Qed.

(** X14.  The dictionary comprehension gives the pairs their costs in the
    order of [itertools.product]: on any size, the cost of the pair
    [(i, j)] is the draw number [(i - 1) * SIZE + (j - 1)], counting from
    0. *)
Theorem draws_in_row_major_order (n : nat) (draw : Assignment.rng) i j :
  i ∈ seq 1 n → j ∈ seq 1 n →
  Assignment.draw_costs draw (Py.product (seq 1 n) (seq 1 n)) !! (i, j)
  = Some (draw ((i - 1) * n + (j - 1))%nat).
Proof.
  intros Hi%elem_of_seq Hj%elem_of_seq. unfold Assignment.draw_costs.
  assert (Py.product (seq 1 n) (seq 1 n) !! ((i - 1) * n + (j - 1))%nat
          = Some (i, j)) as Hk.
  { pose proof (product_lookup (seq 1 n) (seq 1 n) (i - 1) (j - 1) i j) as H.
    rewrite length_seq in H.
    apply H; rewrite lookup_seq_lt by lia; f_equal; lia. }
  rewrite (draw_costs_at draw _ ∅ 0 _ _ Hk); [done|].
  intros k' Hlt Hk'.
  pose proof (NoDup_lookup _ _ _ _
                (AssignmentSpec.NoDup_product _ _ (NoDup_seq 1 n) (NoDup_seq 1 n))
                Hk Hk'). lia.
Qed.

Lemma draws_in_row_major_order_witness :
  Assignment.draw_costs Assignment.seed_0
    (Py.product (seq 1 10) (seq 1 10)) !! (2%nat, 1%nat)
  = Some (Assignment.seed_0 10%nat).
Proof.
  apply (draws_in_row_major_order 10 Assignment.seed_0 2 1).
  - apply elem_of_seq. lia.
  - apply elem_of_seq. lia.
Defined.

(** The recorded matching under costs that are off by a thousandth. *)
Lemma reported_cheapest_near_witness :
  sum_over (zip Assignment.M Assignment.reported)
    (λ ij, at_key Assignment.c ij + 0.001)
  <= sum_over (zip Assignment.M [1; 2; 3; 4; 5; 6; 7; 8; 9; 10]%nat)
       (λ ij, at_key Assignment.c ij + 0.001).
Proof.
  assert ([1; 2; 3; 4; 5; 6; 7; 8; 9; 10]%nat ≡ₚ Assignment.N) as Hp
    by reflexivity.
  assert (Assignment.near (λ ij, at_key Assignment.c ij + 0.001)) as Hnear.
  { intros i j _ _. unfold Assignment.rounding. cbn beta.
    generalize (at_key Assignment.c (i, j)). intros q. lra. }
  destruct (AssignmentSpec.reported_cheapest_near _ _ Hnear Hp) as [_ H].
  exact H.
Defined.

End CellsSpec.
